(** * SecureThoughtVault: the in-memory storage layer ([server/storage.ts])

    A shallow embedding of [MemStorage] and of the record types of
    [shared/schema.ts], followed by the properties of the entry / schedule
    state that the specification lists.

    Modelling conventions.
    - A JavaScript [number] used as an id or a counter is a [Z].  A counter
      starts at 1 and grows by one per [create] call, so it stays in the
      range below 2^53 where JavaScript adds integers exactly.
    - A [Date] is a [Z] (a time stamp); [new Date()] is an extra argument
      [now] of the operation that reads the clock.
    - A column that may be [null] (or a property that may be missing) is an
      [option]; [null] and [undefined] are both [None], which is sound here
      because the code only ever tests such values with [||], [===] against
      a number, or truthiness.
    - A [Map<number, T>] is an association list in insertion order, because
      [Array.from(map.values())] observes that order.
    - The [async] methods never suspend; a method that writes [this] is a
      computation in the state monad [M], a method that only reads is a
      function of the store. *)

From Stdlib Require Import ZArith List String Bool Lia Sorted.
Import ListNotations.
Local Open Scope Z_scope.

(* ------------------------------------------------------------------ *)
(** ** JavaScript [Map<number, V>] *)

Module JsMap.
Section Defs.
Context {V : Type}.

Definition t := list (Z * V).

Definition empty : t := [].

Definition is_key (k : Z) (p : Z * V) : bool := fst p =? k.

(** [map.get(k)] *)
Definition get (k : Z) (m : t) : option V :=
  option_map snd (find (is_key k) m).

(** [map.has(k)] *)
Definition has (k : Z) (m : t) : bool :=
  existsb (is_key k) m.

(** [map.set(k, v)]: an existing key keeps its place, a new key goes last. *)
Fixpoint set (k : Z) (v : V) (m : t) : t :=
  match m with
  | [] => [(k, v)]
  | (k', v') :: m' =>
      if k' =? k then (k, v) :: m' else (k', v') :: set k v m'
  end.

(** The map that [map.delete(k)] leaves; the call itself returns what
    [has k m] was. *)
Definition remove (k : Z) (m : t) : t :=
  filter (fun p => negb (is_key k p)) m.

(** [Array.from(map.values())] *)
Definition values (m : t) : list V := map snd m.

Definition keys (m : t) : list Z := map fst m.
End Defs.
Arguments t : clear implicits.
End JsMap.

(* ------------------------------------------------------------------ *)
(** ** Truthiness: [x || d] *)

(** [x || d] for a number that may be missing: [undefined], [null] and [0]
    are falsy. *)
Definition or_num (x : option Z) (d : Z) : Z :=
  match x with
  | None => d
  | Some 0 => d
  | Some n => n
  end.

(** [x || null] for a number. *)
Definition num_or_null (x : option Z) : option Z :=
  match x with
  | Some 0 => None
  | _ => x
  end.

(** [x || null] for a string: the empty string is falsy. *)
Definition str_or_null (x : option string) : option string :=
  match x with
  | Some EmptyString => None
  | _ => x
  end.

(** [{...old, ...partial}] on one property: [Some v] is a property that the
    partial carries. *)
Definition spread {A : Type} (old : A) (p : option A) : A :=
  match p with
  | Some v => v
  | None => old
  end.

(* ------------------------------------------------------------------ *)
(** ** Records of [shared/schema.ts] *)

(** [entryTypes]: the three strings that the schema admits for [type].  The
    column itself holds a string, and the body of a [PATCH] reaches
    [updateEntry] as it came, so a stored [type] is not confined to them. *)
Definition text : string := "text".
Definition audio : string := "audio".
Definition video : string := "video".
Definition entryTypes : list string := [text; audio; video].

Inductive Visibility := private | scheduled.

Module User.
Record t := mk {
    id : Z;
    username : string;
    password : string;
    displayName : option string;
    email : option string }.
End User.

Module InsertUser.
Record t := mk {
    username : string;
    password : string;
    displayName : option string;
    email : option string }.
End InsertUser.

Module Category.
Record t := mk {
    id : Z;
    userId : option Z;
    name : string }.
End Category.

Module InsertCategory.
Record t := mk {
    userId : option Z;
    name : string }.
End InsertCategory.

Module Entry.
Record t := mk {
    id : Z;
    userId : option Z;
    title : string;
    content : option string;
    mediaUrl : option string;
    type : string;
    visibility : option Visibility;
    categoryId : option Z;
    metadata : option string;
    createdAt : option Z }.
End Entry.

Module InsertEntry.
Record t := mk {
    userId : option Z;
    title : string;
    content : option string;
    mediaUrl : option string;
    type : string;
    visibility : option Visibility;
    categoryId : option Z;
    metadata : option string }.
End InsertEntry.

(** [Partial<Entry>]: every property may be missing. *)
Module PartialEntry.
Record t := mk {
    id : option Z;
    userId : option (option Z);
    title : option string;
    content : option (option string);
    mediaUrl : option (option string);
    type : option string;
    visibility : option (option Visibility);
    categoryId : option (option Z);
    metadata : option (option string);
    createdAt : option (option Z) }.
End PartialEntry.

Module Contact.
Record t := mk {
    id : Z;
    userId : option Z;
    name : string;
    phoneNumber : option string;
    email : option string }.
End Contact.

Module InsertContact.
Record t := mk {
    userId : option Z;
    name : string;
    phoneNumber : option string;
    email : option string }.
End InsertContact.

Module PartialContact.
Record t := mk {
    id : option Z;
    userId : option (option Z);
    name : option string;
    phoneNumber : option (option string);
    email : option (option string) }.
End PartialContact.

Module Schedule.
Record t := mk {
    id : Z;
    entryId : option Z;
    contactId : option Z;
    deliveryDate : Z;
    status : option string;
    reminderEnabled : option bool;
    createdAt : option Z }.
End Schedule.

Module InsertSchedule.
Record t := mk {
    entryId : option Z;
    contactId : option Z;
    deliveryDate : Z;
    reminderEnabled : option bool }.
End InsertSchedule.

Module PartialSchedule.
Record t := mk {
    id : option Z;
    entryId : option (option Z);
    contactId : option (option Z);
    deliveryDate : option Z;
    status : option (option string);
    reminderEnabled : option (option bool);
    createdAt : option (option Z) }.
End PartialSchedule.

(** [Schedule & { contact?: Contact }] *)
Module ScheduleWithContact.
Record t := mk {
    schedule : Schedule.t;
    contact : option Contact.t }.
End ScheduleWithContact.

(** [Entry & { schedule?: Schedule & { contact?: Contact } }] *)
Module EntryWithSchedule.
Record t := mk {
    entry : Entry.t;
    schedule : option ScheduleWithContact.t }.
End EntryWithSchedule.

(** [{ ...entry, ...updatedEntry }] *)
Definition merge_entry (entry : Entry.t) (p : PartialEntry.t) : Entry.t :=
  {| Entry.id := spread (Entry.id entry) (PartialEntry.id p);
     Entry.userId := spread (Entry.userId entry) (PartialEntry.userId p);
     Entry.title := spread (Entry.title entry) (PartialEntry.title p);
     Entry.content := spread (Entry.content entry) (PartialEntry.content p);
     Entry.mediaUrl := spread (Entry.mediaUrl entry) (PartialEntry.mediaUrl p);
     Entry.type := spread (Entry.type entry) (PartialEntry.type p);
     Entry.visibility :=
       spread (Entry.visibility entry) (PartialEntry.visibility p);
     Entry.categoryId :=
       spread (Entry.categoryId entry) (PartialEntry.categoryId p);
     Entry.metadata := spread (Entry.metadata entry) (PartialEntry.metadata p);
     Entry.createdAt :=
       spread (Entry.createdAt entry) (PartialEntry.createdAt p) |}.

(** [{ ...contact, ...updatedContact }] *)
Definition merge_contact (c : Contact.t) (p : PartialContact.t) : Contact.t :=
  {| Contact.id := spread (Contact.id c) (PartialContact.id p);
     Contact.userId := spread (Contact.userId c) (PartialContact.userId p);
     Contact.name := spread (Contact.name c) (PartialContact.name p);
     Contact.phoneNumber :=
       spread (Contact.phoneNumber c) (PartialContact.phoneNumber p);
     Contact.email := spread (Contact.email c) (PartialContact.email p) |}.

(** [{ ...schedule, ...updatedSchedule }] *)
Definition merge_schedule (s : Schedule.t) (p : PartialSchedule.t)
  : Schedule.t :=
  {| Schedule.id := spread (Schedule.id s) (PartialSchedule.id p);
     Schedule.entryId :=
       spread (Schedule.entryId s) (PartialSchedule.entryId p);
     Schedule.contactId :=
       spread (Schedule.contactId s) (PartialSchedule.contactId p);
     Schedule.deliveryDate :=
       spread (Schedule.deliveryDate s) (PartialSchedule.deliveryDate p);
     Schedule.status := spread (Schedule.status s) (PartialSchedule.status p);
     Schedule.reminderEnabled :=
       spread (Schedule.reminderEnabled s) (PartialSchedule.reminderEnabled p);
     Schedule.createdAt :=
       spread (Schedule.createdAt s) (PartialSchedule.createdAt p) |}.

(** The two partials that the schedule coordinator passes to [updateEntry]. *)
Definition set_visibility (v : Visibility) : PartialEntry.t :=
  {| PartialEntry.id := None; PartialEntry.userId := None;
     PartialEntry.title := None; PartialEntry.content := None;
     PartialEntry.mediaUrl := None; PartialEntry.type := None;
     PartialEntry.visibility := Some (Some v);
     PartialEntry.categoryId := None; PartialEntry.metadata := None;
     PartialEntry.createdAt := None |}.

(* ------------------------------------------------------------------ *)
(** ** The store: the private fields of [MemStorage] *)

Record MemStorage := mkStore {
  users : JsMap.t User.t;
  categories : JsMap.t Category.t;
  entries : JsMap.t Entry.t;
  contacts : JsMap.t Contact.t;
  schedules : JsMap.t Schedule.t;
  userIdCounter : Z;
  categoryIdCounter : Z;
  entryIdCounter : Z;
  contactIdCounter : Z;
  scheduleIdCounter : Z }.

Definition with_users (f : JsMap.t User.t -> JsMap.t User.t)
  (idc : Z) (st : MemStorage) : MemStorage :=
  mkStore (f (users st)) (categories st) (entries st) (contacts st)
    (schedules st) idc (categoryIdCounter st) (entryIdCounter st)
    (contactIdCounter st) (scheduleIdCounter st).

Definition with_categories (f : JsMap.t Category.t -> JsMap.t Category.t)
  (idc : Z) (st : MemStorage) : MemStorage :=
  mkStore (users st) (f (categories st)) (entries st) (contacts st)
    (schedules st) (userIdCounter st) idc (entryIdCounter st)
    (contactIdCounter st) (scheduleIdCounter st).

Definition with_entries (f : JsMap.t Entry.t -> JsMap.t Entry.t)
  (idc : Z) (st : MemStorage) : MemStorage :=
  mkStore (users st) (categories st) (f (entries st)) (contacts st)
    (schedules st) (userIdCounter st) (categoryIdCounter st) idc
    (contactIdCounter st) (scheduleIdCounter st).

Definition with_contacts (f : JsMap.t Contact.t -> JsMap.t Contact.t)
  (idc : Z) (st : MemStorage) : MemStorage :=
  mkStore (users st) (categories st) (entries st) (f (contacts st))
    (schedules st) (userIdCounter st) (categoryIdCounter st)
    (entryIdCounter st) idc (scheduleIdCounter st).

Definition with_schedules (f : JsMap.t Schedule.t -> JsMap.t Schedule.t)
  (idc : Z) (st : MemStorage) : MemStorage :=
  mkStore (users st) (categories st) (entries st) (contacts st)
    (f (schedules st)) (userIdCounter st) (categoryIdCounter st)
    (entryIdCounter st) (contactIdCounter st) idc.

(* ------------------------------------------------------------------ *)
(** ** The state monad of the methods that write [this] *)

Definition M (A : Type) : Type := MemStorage -> A * MemStorage.

Definition ret {A : Type} (a : A) : M A := fun st => (a, st).

Definition bind {A B : Type} (m : M A) (f : A -> M B) : M B :=
  fun st => let (a, st') := m st in f a st'.

Definition gets {A : Type} (f : MemStorage -> A) : M A :=
  fun st => (f st, st).

Definition modify (f : MemStorage -> MemStorage) : M unit :=
  fun st => (tt, f st).

Notation "x <- c1 ;; c2" := (bind c1 (fun x => c2))
  (at level 61, c1 at next level, right associativity).
Notation "c1 ;; c2" := (bind c1 (fun _ => c2))
  (at level 61, right associativity).

(** [forEach] over an array, for a callback that writes [this]. *)
Fixpoint forEach {A : Type} (l : list A) (f : A -> M unit) : M unit :=
  match l with
  | [] => ret tt
  | x :: l' => f x ;; forEach l' f
  end.

(* ------------------------------------------------------------------ *)
(** ** [MemStorage]: the methods *)

(** *** Users *)

Definition getUser (id : Z) (st : MemStorage) : option User.t :=
  JsMap.get id (users st).

Definition getUserByUsername (username : string) (st : MemStorage)
  : option User.t :=
  find (fun user => String.eqb (User.username user) username)
    (JsMap.values (users st)).

Definition createUser (insertUser : InsertUser.t) : M User.t :=
  id <- gets userIdCounter ;;
  let user :=
    {| User.id := id;
       User.username := InsertUser.username insertUser;
       User.password := InsertUser.password insertUser;
       User.displayName := str_or_null (InsertUser.displayName insertUser);
       User.email := str_or_null (InsertUser.email insertUser) |} in
  modify (with_users (JsMap.set id user) (id + 1)) ;;
  ret user.

(** *** Categories *)

Definition getCategories (userId : Z) (st : MemStorage) : list Category.t :=
  filter
    (fun category =>
       match Category.userId category with
       | Some u => u =? userId
       | None => false
       end)
    (JsMap.values (categories st)).

Definition getCategoryById (id : Z) (st : MemStorage) : option Category.t :=
  JsMap.get id (categories st).

Definition createCategory (insertCategory : InsertCategory.t)
  : M Category.t :=
  id <- gets categoryIdCounter ;;
  let category :=
    {| Category.id := id;
       Category.userId := InsertCategory.userId insertCategory;
       Category.name := InsertCategory.name insertCategory |} in
  modify (with_categories (JsMap.set id category) (id + 1)) ;;
  ret category.

Definition deleteCategory (id : Z) : M bool :=
  existed <- gets (fun st => JsMap.has id (categories st)) ;;
  c <- gets categoryIdCounter ;;
  modify (with_categories (JsMap.remove id) c) ;;
  ret existed.

(** *** Entries *)

Definition owned_by (userId : Z) (entry : Entry.t) : bool :=
  match Entry.userId entry with
  | Some u => u =? userId
  | None => false
  end.

Definition getEntries (userId : Z) (st : MemStorage) : list Entry.t :=
  filter (owned_by userId) (JsMap.values (entries st)).

Definition getEntryById (id : Z) (st : MemStorage) : option Entry.t :=
  JsMap.get id (entries st).

(** [getEntryById(x)] for an [x] that may be [null] or [undefined]: no key of
    the map is either. *)
Definition getEntryById' (id : option Z) (st : MemStorage)
  : option Entry.t :=
  match id with
  | Some i => getEntryById i st
  | None => None
  end.

Definition createEntry (insertEntry : InsertEntry.t) (now : Z) : M Entry.t :=
  id <- gets entryIdCounter ;;
  let entry :=
    {| Entry.id := id;
       Entry.userId := Some (or_num (InsertEntry.userId insertEntry) 1);
       Entry.title := InsertEntry.title insertEntry;
       Entry.content := str_or_null (InsertEntry.content insertEntry);
       Entry.mediaUrl := str_or_null (InsertEntry.mediaUrl insertEntry);
       Entry.type := InsertEntry.type insertEntry;
       Entry.visibility :=
         Some (match InsertEntry.visibility insertEntry with
               | Some v => v
               | None => private
               end);
       Entry.categoryId := num_or_null (InsertEntry.categoryId insertEntry);
       Entry.metadata := str_or_null (InsertEntry.metadata insertEntry);
       Entry.createdAt := Some now |} in
  modify (with_entries (JsMap.set id entry) (id + 1)) ;;
  ret entry.

Definition updateEntry (id : Z) (updatedEntry : PartialEntry.t)
  : M (option Entry.t) :=
  entry <- gets (getEntryById id) ;;
  match entry with
  | None => ret None
  | Some entry =>
      let updated := merge_entry entry updatedEntry in
      c <- gets entryIdCounter ;;
      modify (with_entries (JsMap.set id updated) c) ;;
      ret (Some updated)
  end.

Definition refers_to (id : Z) (schedule : Schedule.t) : bool :=
  match Schedule.entryId schedule with
  | Some e => e =? id
  | None => false
  end.

Definition delete_schedule_key (k : Z) : M unit :=
  c <- gets scheduleIdCounter ;;
  modify (with_schedules (JsMap.remove k) c).

Definition deleteEntry (id : Z) : M bool :=
  schedules <- gets (fun st =>
                 filter (refers_to id) (JsMap.values (schedules st))) ;;
  forEach schedules
    (fun schedule => delete_schedule_key (Schedule.id schedule)) ;;
  existed <- gets (fun st => JsMap.has id (entries st)) ;;
  c <- gets entryIdCounter ;;
  modify (with_entries (JsMap.remove id) c) ;;
  ret existed.

(** *** Contacts *)

Definition getContacts (userId : Z) (st : MemStorage) : list Contact.t :=
  filter
    (fun contact =>
       match Contact.userId contact with
       | Some u => u =? userId
       | None => false
       end)
    (JsMap.values (contacts st)).

Definition getContactById (id : Z) (st : MemStorage) : option Contact.t :=
  JsMap.get id (contacts st).

Definition getContactById' (id : option Z) (st : MemStorage)
  : option Contact.t :=
  match id with
  | Some i => getContactById i st
  | None => None
  end.

Definition createContact (insertContact : InsertContact.t) : M Contact.t :=
  id <- gets contactIdCounter ;;
  let contact :=
    {| Contact.id := id;
       Contact.userId := InsertContact.userId insertContact;
       Contact.name := InsertContact.name insertContact;
       Contact.phoneNumber := InsertContact.phoneNumber insertContact;
       Contact.email := InsertContact.email insertContact |} in
  modify (with_contacts (JsMap.set id contact) (id + 1)) ;;
  ret contact.

Definition updateContact (id : Z) (updatedContact : PartialContact.t)
  : M (option Contact.t) :=
  contact <- gets (getContactById id) ;;
  match contact with
  | None => ret None
  | Some contact =>
      let updated := merge_contact contact updatedContact in
      c <- gets contactIdCounter ;;
      modify (with_contacts (JsMap.set id updated) c) ;;
      ret (Some updated)
  end.

Definition deleteContact (id : Z) : M bool :=
  existed <- gets (fun st => JsMap.has id (contacts st)) ;;
  c <- gets contactIdCounter ;;
  modify (with_contacts (JsMap.remove id) c) ;;
  ret existed.

(** *** Schedules *)

Definition getSchedules (userId : Z) (st : MemStorage) : list Schedule.t :=
  let entryIds := map Entry.id (getEntries userId st) in
  filter
    (fun schedule =>
       match Schedule.entryId schedule with
       | Some e => existsb (Z.eqb e) entryIds
       | None => false
       end)
    (JsMap.values (schedules st)).

Definition getScheduleById (id : Z) (st : MemStorage) : option Schedule.t :=
  JsMap.get id (schedules st).

Definition getSchedulesByEntryId (entryId : Z) (st : MemStorage)
  : option Schedule.t :=
  find (refers_to entryId) (JsMap.values (schedules st)).

Definition createSchedule (insertSchedule : InsertSchedule.t) (now : Z)
  : M Schedule.t :=
  id <- gets scheduleIdCounter ;;
  let schedule :=
    {| Schedule.id := id;
       Schedule.entryId := InsertSchedule.entryId insertSchedule;
       Schedule.contactId := InsertSchedule.contactId insertSchedule;
       Schedule.deliveryDate := InsertSchedule.deliveryDate insertSchedule;
       Schedule.status := Some "pending"%string;
       Schedule.reminderEnabled :=
         InsertSchedule.reminderEnabled insertSchedule;
       Schedule.createdAt := Some now |} in
  modify (with_schedules (JsMap.set id schedule) (id + 1)) ;;
  entry <- gets (getEntryById' (InsertSchedule.entryId insertSchedule)) ;;
  match entry with
  | Some entry =>
      updateEntry (Entry.id entry) (set_visibility scheduled) ;;
      ret schedule
  | None => ret schedule
  end.

Definition updateSchedule (id : Z) (updatedSchedule : PartialSchedule.t)
  : M (option Schedule.t) :=
  schedule <- gets (getScheduleById id) ;;
  match schedule with
  | None => ret None
  | Some schedule =>
      let updated := merge_schedule schedule updatedSchedule in
      c <- gets scheduleIdCounter ;;
      modify (with_schedules (JsMap.set id updated) c) ;;
      ret (Some updated)
  end.

Definition deleteSchedule (id : Z) : M bool :=
  schedule <- gets (getScheduleById id) ;;
  match schedule with
  | Some schedule =>
      entry <- gets (getEntryById' (Schedule.entryId schedule)) ;;
      match entry with
      | Some entry =>
          updateEntry (Entry.id entry) (set_visibility private) ;; ret tt
      | None => ret tt
      end
  | None => ret tt
  end ;;
  existed <- gets (fun st => JsMap.has id (schedules st)) ;;
  delete_schedule_key id ;;
  ret existed.

(** *** Combined queries *)

Definition getEntriesWithSchedules (userId : Z) (st : MemStorage)
  : list EntryWithSchedule.t :=
  let entries := getEntries userId st in
  fold_left
    (fun result entry =>
       let schedule := getSchedulesByEntryId (Entry.id entry) st in
       let contact :=
         match schedule with
         | Some s => getContactById' (Schedule.contactId s) st
         | None => None
         end in
       result ++
       [ {| EntryWithSchedule.entry := entry;
            EntryWithSchedule.schedule :=
              match schedule with
              | Some s =>
                  Some {| ScheduleWithContact.schedule := s;
                          ScheduleWithContact.contact := contact |}
              | None => None
              end |} ])
    entries [].

Definition has_schedule (e : EntryWithSchedule.t) : bool :=
  match EntryWithSchedule.schedule e with
  | Some _ => true
  | None => false
  end.

Definition getScheduledEntries (userId : Z) (st : MemStorage)
  : list EntryWithSchedule.t :=
  filter has_schedule (getEntriesWithSchedules userId st).

(** *** The constructor: empty maps, counters at 1, then the seed data *)

Definition empty_store : MemStorage :=
  mkStore JsMap.empty JsMap.empty JsMap.empty JsMap.empty JsMap.empty
    1 1 1 1 1.

Definition constructor : M unit :=
  createUser
    (InsertUser.mk "demo" "password" (Some "Demo User"%string)
       (Some "demo@example.com"%string)) ;;
  createCategory (InsertCategory.mk (Some 1) "Personal") ;;
  createCategory (InsertCategory.mk (Some 1) "Work") ;;
  createCategory (InsertCategory.mk (Some 1) "Ideas") ;;
  createContact
    (InsertContact.mk (Some 1) "Myself" (Some ""%string)
       (Some "demo@example.com"%string)) ;;
  createContact
    (InsertContact.mk (Some 1) "Mom" (Some "555-123-4567"%string)
       (Some "mom@example.com"%string)) ;;
  createContact
    (InsertContact.mk (Some 1) "Partner" (Some "555-987-6543"%string)
       (Some "partner@example.com"%string)) ;;
  ret tt.

(** [export const storage = new MemStorage()] *)
Definition storage : MemStorage := snd (constructor empty_store).

(* ------------------------------------------------------------------ *)
(** ** Runs of the store: the mutating calls of [IStorage] *)

Inductive Op :=
| CreateUser (insertUser : InsertUser.t)
| CreateCategory (insertCategory : InsertCategory.t)
| DeleteCategory (id : Z)
| CreateEntry (insertEntry : InsertEntry.t) (now : Z)
| UpdateEntry (id : Z) (updatedEntry : PartialEntry.t)
| DeleteEntry (id : Z)
| CreateContact (insertContact : InsertContact.t)
| UpdateContact (id : Z) (updatedContact : PartialContact.t)
| DeleteContact (id : Z)
| CreateSchedule (insertSchedule : InsertSchedule.t) (now : Z)
| UpdateSchedule (id : Z) (updatedSchedule : PartialSchedule.t)
| DeleteSchedule (id : Z).

(** What a call resolves to. *)
Inductive Result :=
| RUser (user : User.t)
| RCategory (category : Category.t)
| REntry (entry : Entry.t)
| RContact (contact : Contact.t)
| RSchedule (schedule : Schedule.t)
| RUpdatedEntry (entry : option Entry.t)
| RUpdatedContact (contact : option Contact.t)
| RUpdatedSchedule (schedule : option Schedule.t)
| RDeleted (existed : bool).

Definition call (op : Op) : M Result :=
  match op with
  | CreateUser u => r <- createUser u ;; ret (RUser r)
  | CreateCategory c => r <- createCategory c ;; ret (RCategory r)
  | DeleteCategory id => r <- deleteCategory id ;; ret (RDeleted r)
  | CreateEntry e now => r <- createEntry e now ;; ret (REntry r)
  | UpdateEntry id p => r <- updateEntry id p ;; ret (RUpdatedEntry r)
  | DeleteEntry id => r <- deleteEntry id ;; ret (RDeleted r)
  | CreateContact c => r <- createContact c ;; ret (RContact r)
  | UpdateContact id p => r <- updateContact id p ;; ret (RUpdatedContact r)
  | DeleteContact id => r <- deleteContact id ;; ret (RDeleted r)
  | CreateSchedule s now => r <- createSchedule s now ;; ret (RSchedule r)
  | UpdateSchedule id p =>
      r <- updateSchedule id p ;; ret (RUpdatedSchedule r)
  | DeleteSchedule id => r <- deleteSchedule id ;; ret (RDeleted r)
  end.

Definition step (st : MemStorage) (op : Op) : MemStorage :=
  snd (call op st).

Definition run (ops : list Op) (st : MemStorage) : MemStorage :=
  fold_left step ops st.

(** The states that calls can bring the seeded store to. *)
Definition reachable (st : MemStorage) : Prop :=
  exists ops, st = run ops storage.

(** The five record types, each with an id counter of its own. *)
Inductive Kind := KUser | KCategory | KEntry | KContact | KSchedule.

Definition counter (k : Kind) (st : MemStorage) : Z :=
  match k with
  | KUser => userIdCounter st
  | KCategory => categoryIdCounter st
  | KEntry => entryIdCounter st
  | KContact => contactIdCounter st
  | KSchedule => scheduleIdCounter st
  end.

(** The id of the record that a [create] call of kind [k] returned. *)
Definition created_id (k : Kind) (r : Result) : option Z :=
  match k, r with
  | KUser, RUser u => Some (User.id u)
  | KCategory, RCategory c => Some (Category.id c)
  | KEntry, REntry e => Some (Entry.id e)
  | KContact, RContact c => Some (Contact.id c)
  | KSchedule, RSchedule s => Some (Schedule.id s)
  | _, _ => None
  end.

(** The ids that the [create] calls of kind [k] return along a run, in the
    order of the calls. *)
Fixpoint created_ids (k : Kind) (ops : list Op) (st : MemStorage) : list Z :=
  match ops with
  | [] => []
  | op :: ops' =>
      let (r, st') := call op st in
      match created_id k r with
      | Some i => i :: created_ids k ops' st'
      | None => created_ids k ops' st'
      end
  end.

(** *** Sample values *)

Definition an_entry (v : option Visibility) : InsertEntry.t :=
  {| InsertEntry.userId := Some 1; InsertEntry.title := "Hi";
     InsertEntry.content := Some "hello"%string;
     InsertEntry.mediaUrl := None; InsertEntry.type := text;
     InsertEntry.visibility := v; InsertEntry.categoryId := None;
     InsertEntry.metadata := None |}.

Definition a_schedule (entryId contactId : Z) : InsertSchedule.t :=
  {| InsertSchedule.entryId := Some entryId;
     InsertSchedule.contactId := Some contactId;
     InsertSchedule.deliveryDate := 2000;
     InsertSchedule.reminderEnabled := None |}.

(** The seeded store after one entry was created, and that entry. *)
Definition first_entry : Entry.t :=
  fst (createEntry (an_entry None) 5 storage).

Definition one_entry_store : MemStorage :=
  run [CreateEntry (an_entry None) 5] storage.

(** Scenario 6 of the specification: two entries, and one schedule for the
    second of them. *)
Definition scenario6 : MemStorage :=
  run [CreateEntry (an_entry None) 5; CreateEntry (an_entry None) 6;
       CreateSchedule (a_schedule 2 2) 7] storage.

(** The body [{"id": 2}] of a [PATCH /api/schedules/1]. *)
Definition renumber : PartialSchedule.t :=
  {| PartialSchedule.id := Some 2; PartialSchedule.entryId := None;
     PartialSchedule.contactId := None; PartialSchedule.deliveryDate := None;
     PartialSchedule.status := None; PartialSchedule.reminderEnabled := None;
     PartialSchedule.createdAt := None |}.

(** One entry with one schedule, whose [id] property was then patched. *)
Definition renumbered_store : MemStorage :=
  run [CreateEntry (an_entry None) 5; CreateSchedule (a_schedule 1 2) 6;
       UpdateSchedule 1 renumber] storage.

(** An entry with a schedule, whose visibility was then patched back to
    "private" through [PATCH /api/entries/1]. *)
Definition patched_private_store : MemStorage :=
  run [CreateEntry (an_entry None) 5; CreateSchedule (a_schedule 1 2) 6;
       UpdateEntry 1 (set_visibility private)] storage.

(** Runs with one call that is not coordinated: an entry patched to
    "scheduled"; the [id] of a scheduled entry patched; a schedule created
    before its entry; a second schedule for an entry, and the first one
    deleted; a schedule moved to another entry; a schedule given the [id] of
    another one, which [deleteEntry] then deletes in its place. *)
Definition uncoordinated_runs : list (list Op) :=
  [ [CreateEntry (an_entry None) 5; UpdateEntry 1 (set_visibility scheduled)];
    [CreateEntry (an_entry None) 5; CreateSchedule (a_schedule 1 2) 6;
     UpdateEntry 1
       (PartialEntry.mk (Some 5) None None None None None None None None
          None)];
    [CreateSchedule (a_schedule 1 2) 5; CreateEntry (an_entry None) 6];
    [CreateEntry (an_entry None) 5; CreateSchedule (a_schedule 1 2) 6;
     CreateSchedule (a_schedule 1 3) 7; DeleteSchedule 1];
    [CreateEntry (an_entry None) 5; CreateEntry (an_entry None) 6;
     CreateSchedule (a_schedule 1 2) 7;
     UpdateSchedule 1
       (PartialSchedule.mk None (Some (Some 2)) None None None None None)];
    [CreateEntry (an_entry None) 5; CreateEntry (an_entry None) 6;
     CreateSchedule (a_schedule 1 2) 7; UpdateSchedule 1 renumber;
     CreateSchedule (a_schedule 2 2) 8; DeleteEntry 1] ].

(** The body [{"id": 5}] of a [PATCH /api/entries/1]. *)
Definition renumber_entry : PartialEntry.t :=
  PartialEntry.mk (Some 5) None None None None None None None None None.

(** One private entry, whose [id] property was then patched: it sits under
    key 1 with [id] 5. *)
Definition id_patched_store : MemStorage :=
  run [CreateEntry (an_entry None) 5; UpdateEntry 1 renumber_entry] storage.

Definition id_patched_entry : Entry.t :=
  merge_entry first_entry renumber_entry.

(** Two entries with a schedule each, after the [id] of the first schedule
    was patched to 2, the key of the second. *)
Definition crossed_store : MemStorage :=
  run [CreateEntry (an_entry None) 5; CreateEntry (an_entry None) 6;
       CreateSchedule (a_schedule 1 2) 7; UpdateSchedule 1 renumber;
       CreateSchedule (a_schedule 2 3) 8] storage.

(** Does the call hand out an id of kind [k]? *)
Definition creates (k : Kind) (op : Op) : bool :=
  match k, op with
  | KUser, CreateUser _ => true
  | KCategory, CreateCategory _ => true
  | KEntry, CreateEntry _ _ => true
  | KContact, CreateContact _ => true
  | KSchedule, CreateSchedule _ _ => true
  | _, _ => false
  end.

(* ------------------------------------------------------------------ *)
(** ** The properties of the specification, as predicates on stores *)

Definition is_scheduled (e : Entry.t) : bool :=
  match Entry.visibility e with
  | Some scheduled => true
  | _ => false
  end.

(** I2: an entry is "scheduled" exactly when some schedule points to it. *)
Definition visibility_in_sync (st : MemStorage) : Prop :=
  forall e, In e (JsMap.values (entries st)) ->
    (Entry.visibility e = Some scheduled <->
     exists s, In s (JsMap.values (schedules st)) /\
               Schedule.entryId s = Some (Entry.id e)).

(** The same, as a test that runs. *)
Definition visibility_in_syncb (st : MemStorage) : bool :=
  forallb
    (fun e =>
       Bool.eqb (is_scheduled e)
         (existsb (refers_to (Entry.id e)) (JsMap.values (schedules st))))
    (JsMap.values (entries st)).

(** Every schedule sits in the map under its own [id]. *)
Definition schedules_keyed_by_id (st : MemStorage) : bool :=
  forallb (fun p => Schedule.id (snd p) =? fst p) (schedules st).

(** A call that cannot move a schedule away from its key: any call but an
    [updateSchedule] whose partial carries an [id]. *)
Definition keeps_schedule_ids (op : Op) : bool :=
  match op with
  | UpdateSchedule _ p =>
      match PartialSchedule.id p with
      | Some _ => false
      | None => true
      end
  | _ => true
  end.

(** I4 for one entry id: once [deleteEntry(e)] has run, no schedule of the
    store points to [e]. *)
Definition cascade_complete (e : Z) (st : MemStorage) : Prop :=
  forall s, In s (JsMap.values (schedules (snd (deleteEntry e st)))) ->
            Schedule.entryId s <> Some e.

(** P6: the two combined queries agree with each other and with the
    visibility of the entries. *)
Definition composer_agreement (st : MemStorage) : Prop :=
  forall userId,
    (forall r, In r (getScheduledEntries userId st) ->
       Entry.visibility (EntryWithSchedule.entry r) = Some scheduled /\
       EntryWithSchedule.schedule r <> None) /\
    (forall r, In r (getEntriesWithSchedules userId st) ->
       ~ In r (getScheduledEntries userId st) ->
       EntryWithSchedule.schedule r = None).

(** A call is coordinated when it leaves the visibility of entries and the
    link from schedules to entries to the schedule coordinator: an entry is
    not created as "scheduled", a patch of an entry carries neither [id] nor
    [visibility], a schedule is created for an entry that exists and has no
    schedule yet, and a patch of a schedule carries neither [id] nor
    [entryId]. *)
Definition coordinated (st : MemStorage) (op : Op) : bool :=
  match op with
  | CreateEntry e _ =>
      match InsertEntry.visibility e with
      | Some scheduled => false
      | _ => true
      end
  | UpdateEntry _ p =>
      match PartialEntry.id p, PartialEntry.visibility p with
      | None, None => true
      | _, _ => false
      end
  | CreateSchedule s _ =>
      match InsertSchedule.entryId s with
      | Some e =>
          JsMap.has e (entries st) &&
          match getSchedulesByEntryId e st with
          | Some _ => false
          | None => true
          end
      | None => false
      end
  | UpdateSchedule _ p =>
      match PartialSchedule.id p, PartialSchedule.entryId p with
      | None, None => true
      | _, _ => false
      end
  | _ => true
  end.

(** A run all of whose calls are coordinated; [None] when one is not. *)
Fixpoint run_coordinated (ops : list Op) (st : MemStorage)
  : option MemStorage :=
  match ops with
  | [] => Some st
  | op :: ops' =>
      if coordinated st op then run_coordinated ops' (step st op) else None
  end.

(** What the coordinated calls keep true of the entries [es], the schedules
    [ss] and their two counters. *)
Record coordinated_inv (es : JsMap.t Entry.t) (ss : JsMap.t Schedule.t)
  (ec sc : Z) : Prop := {
  inv_entry_keys : NoDup (JsMap.keys es);
  inv_schedule_keys : NoDup (JsMap.keys ss);
  inv_entry_id : forall k e, JsMap.get k es = Some e ->
    Entry.id e = k /\ k < ec;
  inv_schedule_id : forall k s, JsMap.get k ss = Some s ->
    Schedule.id s = k /\ k < sc;
  inv_schedule_entry : forall k s, JsMap.get k ss = Some s ->
    exists i e, Schedule.entryId s = Some i /\ JsMap.get i es = Some e;
  inv_one_schedule : forall k1 s1 k2 s2,
    JsMap.get k1 ss = Some s1 -> JsMap.get k2 ss = Some s2 ->
    Schedule.entryId s1 = Schedule.entryId s2 -> k1 = k2;
  inv_visibility : forall k e, JsMap.get k es = Some e ->
    (Entry.visibility e = Some scheduled <->
     exists k' s, JsMap.get k' ss = Some s /\ Schedule.entryId s = Some k) }.

Definition store_inv (st : MemStorage) : Prop :=
  coordinated_inv (entries st) (schedules st)
    (entryIdCounter st) (scheduleIdCounter st).

(** [map.delete] of several keys in turn. *)
Definition remove_all {V : Type} (ks : list Z) (m : JsMap.t V) : JsMap.t V :=
  fold_left (fun m k => JsMap.remove k m) ks m.

(** The schedules that [deleteEntry(id)] selects, by their [id] property. *)
Definition cascade_ids (id : Z) (st : MemStorage) : list Z :=
  map Schedule.id (filter (refers_to id) (JsMap.values (schedules st))).

(** The view record that [getEntriesWithSchedules] pushes for one entry. *)
Definition view_of (st : MemStorage) (entry : Entry.t)
  : EntryWithSchedule.t :=
  {| EntryWithSchedule.entry := entry;
     EntryWithSchedule.schedule :=
       option_map
         (fun s =>
            {| ScheduleWithContact.schedule := s;
               ScheduleWithContact.contact :=
                 getContactById' (Schedule.contactId s) st |})
         (getSchedulesByEntryId (Entry.id entry) st) |}.

(* ------------------------------------------------------------------ *)
(** ** The remaining queries of [MemStorage] *)

Definition in_category (categoryId : Z) (entry : Entry.t) : bool :=
  match Entry.categoryId entry with
  | Some c => c =? categoryId
  | None => false
  end.

Definition getEntriesByType (userId : Z) (type : string) (st : MemStorage)
  : list Entry.t :=
  filter
    (fun entry =>
       owned_by userId entry &&
       String.eqb (Entry.type entry) type)
    (JsMap.values (entries st)).

Definition getEntriesByCategory (userId categoryId : Z) (st : MemStorage)
  : list Entry.t :=
  filter
    (fun entry => owned_by userId entry && in_category categoryId entry)
    (JsMap.values (entries st)).

(* ------------------------------------------------------------------ *)
(** ** Keys, listings and patches *)

(** The keys of the map of one record type, in listing order. *)
Definition keys_of (k : Kind) (st : MemStorage) : list Z :=
  match k with
  | KUser => JsMap.keys (users st)
  | KCategory => JsMap.keys (categories st)
  | KEntry => JsMap.keys (entries st)
  | KContact => JsMap.keys (contacts st)
  | KSchedule => JsMap.keys (schedules st)
  end.

(** A map whose keys were handed out by the counter [c], in order. *)
Definition keys_below {V : Type} (m : JsMap.t V) (c : Z) : Prop :=
  1 <= c /\ StronglySorted Z.lt (JsMap.keys m) /\
  Forall (fun i => 1 <= i < c) (JsMap.keys m).

Record store_ok (st : MemStorage) : Prop := {
  ok_users : keys_below (users st) (userIdCounter st);
  ok_categories : keys_below (categories st) (categoryIdCounter st);
  ok_entries : keys_below (entries st) (entryIdCounter st);
  ok_contacts : keys_below (contacts st) (contactIdCounter st);
  ok_schedules : keys_below (schedules st) (scheduleIdCounter st) }.

(** The patch [{}]. *)
Definition empty_patch : PartialEntry.t :=
  PartialEntry.mk None None None None None None None None None None.

(** An entry with its visibility blanked: what is left to compare when the
    visibility is set aside. *)
Definition forget_visibility (e : Entry.t) : Entry.t :=
  merge_entry e
    (PartialEntry.mk None None None None None None (Some None) None None
       None).

(** A view record once the contact [id] is gone: a schedule for that contact
    is embedded without a contact. *)
Definition without_contact (id : Z) (r : EntryWithSchedule.t)
  : EntryWithSchedule.t :=
  {| EntryWithSchedule.entry := EntryWithSchedule.entry r;
     EntryWithSchedule.schedule :=
       option_map
         (fun sw =>
            {| ScheduleWithContact.schedule := ScheduleWithContact.schedule sw;
               ScheduleWithContact.contact :=
                 match Schedule.contactId (ScheduleWithContact.schedule sw)
                 with
                 | Some c =>
                     if c =? id then None else ScheduleWithContact.contact sw
                 | None => ScheduleWithContact.contact sw
                 end |})
         (EntryWithSchedule.schedule r) |}.

(** A call that cannot move an entry or a schedule away from its key: any
    call but an update whose partial carries an [id]. *)
Definition keeps_ids (op : Op) : bool :=
  match op with
  | UpdateEntry _ p =>
      match PartialEntry.id p with
      | Some _ => false
      | None => true
      end
  | _ => keeps_schedule_ids op
  end.

(** Every entry sits in the map under its own [id]. *)
Definition entries_keyed_by_id (st : MemStorage) : bool :=
  forallb (fun p => Entry.id (snd p) =? fst p) (entries st).

(* ------------------------------------------------------------------ *)
(** ** The API boundary ([server/routes.ts])

    The handlers that read, patch and delete, as functions of the request
    and of the store [storage]; every handler works for user 1.  A handler
    answers with [res.status(code).json(body)], [res.json(body)] (status 200)
    or [res.status(204).send()].

    [parseInt] is a parameter: [None] is [NaN], [Some n] the integer read.
    The body of a [PATCH] is the partial that the handler passes on to the
    store.  The [POST] handlers, which go through the zod schemas, are not
    modelled. *)

Module Routes.

(** [userWithoutPassword] *)
Record PublicUser := mkPublicUser {
  id : Z;
  username : string;
  displayName : option string;
  email : option string }.

Inductive Body :=
| Error (error : string)
| JsonUser (user : PublicUser)
| JsonCategories (categories : list Category.t)
| JsonEntries (entries : list Entry.t)
| JsonEntry (entry : Entry.t)
| JsonContacts (contacts : list Contact.t)
| JsonContact (contact : Contact.t)
| JsonViews (views : list EntryWithSchedule.t)
| JsonSchedule (schedule : Schedule.t)
| NoBody.

Record Response := mkResponse {
  status : Z;
  body : Body }.

Section Handlers.
Variable parseInt : string -> option Z.

(** A query parameter is truthy when it is present and not empty. *)
Definition truthy (q : option string) : option string :=
  match q with
  | Some EmptyString => None
  | _ => q
  end.

(** [GET /users/me] *)
Definition get_users_me (st : MemStorage) : Response :=
  match getUser 1 st with
  | None => mkResponse 404 (Error "User not found")
  | Some user =>
      mkResponse 200
        (JsonUser
           (mkPublicUser (User.id user) (User.username user)
              (User.displayName user) (User.email user)))
  end.

(** [GET /categories] *)
Definition get_categories (st : MemStorage) : Response :=
  mkResponse 200 (JsonCategories (getCategories 1 st)).

(** [DELETE /categories/:id] *)
Definition delete_category (id : string) : M Response :=
  match parseInt id with
  | None => ret (mkResponse 400 (Error "Invalid ID"))
  | Some id =>
      deleted <- deleteCategory id ;;
      if deleted then ret (mkResponse 204 NoBody)
      else ret (mkResponse 404 (Error "Category not found"))
  end.

(** [GET /entries?type=...&categoryId=...] *)
Definition get_entries (qtype qcategoryId : option string) (st : MemStorage)
  : Response :=
  let categoryId :=
    match truthy qcategoryId with
    | Some q => parseInt q
    | None => None
    end in
  mkResponse 200
    (JsonEntries
       match truthy qtype with
       | Some type => getEntriesByType 1 type st
       | None =>
           match categoryId with
           | Some 0 => getEntries 1 st
           | Some c => getEntriesByCategory 1 c st
           | None => getEntries 1 st
           end
       end).

(** [GET /entries/:id] *)
Definition get_entry (id : string) (st : MemStorage) : Response :=
  match parseInt id with
  | None => mkResponse 400 (Error "Invalid ID")
  | Some id =>
      match getEntryById id st with
      | None => mkResponse 404 (Error "Entry not found")
      | Some entry => mkResponse 200 (JsonEntry entry)
      end
  end.

(** [PATCH /entries/:id] *)
Definition patch_entry (id : string) (body : PartialEntry.t) : M Response :=
  match parseInt id with
  | None => ret (mkResponse 400 (Error "Invalid ID"))
  | Some id =>
      updated <- updateEntry id body ;;
      match updated with
      | None => ret (mkResponse 404 (Error "Entry not found"))
      | Some updated => ret (mkResponse 200 (JsonEntry updated))
      end
  end.

(** [DELETE /entries/:id] *)
Definition delete_entry (id : string) : M Response :=
  match parseInt id with
  | None => ret (mkResponse 400 (Error "Invalid ID"))
  | Some id =>
      deleted <- deleteEntry id ;;
      if deleted then ret (mkResponse 204 NoBody)
      else ret (mkResponse 404 (Error "Entry not found"))
  end.

(** [GET /contacts] *)
Definition get_contacts (st : MemStorage) : Response :=
  mkResponse 200 (JsonContacts (getContacts 1 st)).

(** [PATCH /contacts/:id] *)
Definition patch_contact (id : string) (body : PartialContact.t)
  : M Response :=
  match parseInt id with
  | None => ret (mkResponse 400 (Error "Invalid ID"))
  | Some id =>
      updated <- updateContact id body ;;
      match updated with
      | None => ret (mkResponse 404 (Error "Contact not found"))
      | Some updated => ret (mkResponse 200 (JsonContact updated))
      end
  end.

(** [DELETE /contacts/:id] *)
Definition delete_contact (id : string) : M Response :=
  match parseInt id with
  | None => ret (mkResponse 400 (Error "Invalid ID"))
  | Some id =>
      deleted <- deleteContact id ;;
      if deleted then ret (mkResponse 204 NoBody)
      else ret (mkResponse 404 (Error "Contact not found"))
  end.

(** [GET /entries-with-schedules] *)
Definition get_entries_with_schedules (st : MemStorage) : Response :=
  mkResponse 200 (JsonViews (getEntriesWithSchedules 1 st)).

(** [GET /scheduled-entries] *)
Definition get_scheduled_entries (st : MemStorage) : Response :=
  mkResponse 200 (JsonViews (getScheduledEntries 1 st)).

(** [PATCH /schedules/:id] *)
Definition patch_schedule (id : string) (body : PartialSchedule.t)
  : M Response :=
  match parseInt id with
  | None => ret (mkResponse 400 (Error "Invalid ID"))
  | Some id =>
      updated <- updateSchedule id body ;;
      match updated with
      | None => ret (mkResponse 404 (Error "Schedule not found"))
      | Some updated => ret (mkResponse 200 (JsonSchedule updated))
      end
  end.

(** [DELETE /schedules/:id] *)
Definition delete_schedule (id : string) : M Response :=
  match parseInt id with
  | None => ret (mkResponse 400 (Error "Invalid ID"))
  | Some id =>
      deleted <- deleteSchedule id ;;
      if deleted then ret (mkResponse 204 NoBody)
      else ret (mkResponse 404 (Error "Schedule not found"))
  end.

End Handlers.

(** A [parseInt] for the examples: one decimal digit, anything else is
    [NaN]. *)
Definition one_digit (s : string) : option Z :=
  match s with
  | String c EmptyString =>
      let n := Z.of_nat (Ascii.nat_of_ascii c) - 48 in
      if (0 <=? n) && (n <=? 9) then Some n else None
  | _ => None
  end.

End Routes.

(* ------------------------------------------------------------------ *)
(** ** The client: what the screens compute from the answers of the API

    [HomeScreen] filters the records of [GET /api/entries-with-schedules] by
    the active tab and the selected contact; [InsightsScreen] counts them.
    [entries] is [None] while the query has no data. *)

Module HomeScreen.
Section Filter.
Variable parseInt : string -> option Z.

(** [matchesCategory] for one record *)
Definition matchesCategory (activeCategory : string)
  (entry : EntryWithSchedule.t) : bool :=
  let e := EntryWithSchedule.entry entry in
  if String.eqb activeCategory "all" then true
  else if String.eqb activeCategory "scheduled" then is_scheduled e
  else if String.eqb activeCategory "text" ||
          String.eqb activeCategory "audio" ||
          String.eqb activeCategory "video"
  then String.eqb (Entry.type e) activeCategory
  else
    match Entry.categoryId e, parseInt activeCategory with
    | Some c, Some n => c =? n
    | _, _ => false
    end.

(** [entry.schedule?.contactId === selectedContactId] *)
Definition scheduled_for (contactId : Z) (entry : EntryWithSchedule.t)
  : bool :=
  match EntryWithSchedule.schedule entry with
  | Some sw =>
      match Schedule.contactId (ScheduleWithContact.schedule sw) with
      | Some c => c =? contactId
      | None => false
      end
  | None => false
  end.

(** [filteredEntries]; a [selectedContactId] of [null], [NaN] or 0 is
    falsy and selects nothing. *)
Definition filteredEntries (entries : option (list EntryWithSchedule.t))
  (activeCategory : string) (selectedContactId : option Z)
  : list EntryWithSchedule.t :=
  match entries with
  | Some entries =>
      filter
        (fun entry =>
           if negb (matchesCategory activeCategory entry) then false
           else
             match selectedContactId with
             | None => true
             | Some 0 => true
             | Some c => scheduled_for c entry
             end)
        entries
  | None => []
  end.

End Filter.
End HomeScreen.

Module InsightsScreen.

Record Stats := mkStats {
  totalEntries : nat;
  textEntries : nat;
  audioEntries : nat;
  videoEntries : nat;
  scheduledEntries : nat }.

Definition count (f : Entry.t -> bool) (entries : list EntryWithSchedule.t)
  : nat :=
  List.length (filter (fun e => f (EntryWithSchedule.entry e)) entries).

(** The five counts; [entries?.length || 0] is 0 without data. *)
Definition stats (entries : option (list EntryWithSchedule.t)) : Stats :=
  match entries with
  | Some entries =>
      {| totalEntries := List.length entries;
         textEntries :=
           count (fun e => String.eqb (Entry.type e) "text")
             entries;
         audioEntries :=
           count (fun e => String.eqb (Entry.type e) "audio")
             entries;
         videoEntries :=
           count (fun e => String.eqb (Entry.type e) "video")
             entries;
         scheduledEntries := count is_scheduled entries |}
  | None => mkStats 0 0 0 0 0
  end.

End InsightsScreen.

(* ------------------------------------------------------------------ *)
(** ** Lemmas on [JsMap] *)

Section JsMapFacts.
Context {V : Type}.
Implicit Types (m : JsMap.t V) (k : Z) (v : V).

Lemma get_cons k k0 v0 m :
  JsMap.get k ((k0, v0) :: m) = if k0 =? k then Some v0 else JsMap.get k m.
Proof.
  unfold JsMap.get; simpl. unfold JsMap.is_key at 1; simpl.
  destruct (k0 =? k); reflexivity.
Qed.

Lemma get_set k' k v m :
  JsMap.get k' (JsMap.set k v m) = if k' =? k then Some v else JsMap.get k' m.
Proof.
  induction m as [|[k0 v0] m IH]; simpl.
  - rewrite get_cons, (Z.eqb_sym k k'). reflexivity.
  - destruct (k0 =? k) eqn:E0; rewrite !get_cons.
    + apply Z.eqb_eq in E0; subst k0. rewrite (Z.eqb_sym k k').
      destruct (k' =? k); reflexivity.
    + rewrite IH. destruct (k0 =? k') eqn:E1; [|reflexivity].
      apply Z.eqb_eq in E1; subst k0. rewrite E0. reflexivity.
Qed.

Lemma get_remove k' k m :
  JsMap.get k' (JsMap.remove k m) = if k' =? k then None else JsMap.get k' m.
Proof.
  induction m as [|[k0 v0] m IH].
  - simpl. destruct (k' =? k); reflexivity.
  - change (JsMap.remove k ((k0, v0) :: m))
      with (if negb (k0 =? k) then (k0, v0) :: JsMap.remove k m
            else JsMap.remove k m).
    rewrite get_cons.
    destruct (k0 =? k) eqn:E0; simpl.
    + apply Z.eqb_eq in E0; subst k0. rewrite IH, (Z.eqb_sym k k').
      destruct (k' =? k); reflexivity.
    + rewrite get_cons, IH. destruct (k0 =? k') eqn:E1; [|reflexivity].
      apply Z.eqb_eq in E1; subst k0. rewrite E0. reflexivity.
Qed.

Lemma get_remove_all k' ks m :
  JsMap.get k' (remove_all ks m) =
  if existsb (Z.eqb k') ks then None else JsMap.get k' m.
Proof.
  unfold remove_all. revert m.
  induction ks as [|k ks IH]; intros m; simpl; [reflexivity|].
  rewrite IH, get_remove.
  destruct (k' =? k); simpl; [|reflexivity].
  destruct (existsb (Z.eqb k') ks); reflexivity.
Qed.

Lemma has_get k m :
  JsMap.has k m = match JsMap.get k m with Some _ => true | None => false end.
Proof.
  unfold JsMap.has, JsMap.get.
  induction m as [|p m IH]; simpl; [reflexivity|].
  destruct (JsMap.is_key k p); simpl; [reflexivity|apply IH].
Qed.

Lemma get_In k v m : JsMap.get k m = Some v -> In (k, v) m.
Proof.
  unfold JsMap.get. intros H.
  destruct (find (JsMap.is_key k) m) as [[k0 v0]|] eqn:F; [|discriminate].
  apply find_some in F. destruct F as [F1 F2].
  unfold JsMap.is_key in F2; simpl in F2. apply Z.eqb_eq in F2.
  simpl in H. injection H as <-. subst k0. exact F1.
Qed.

Lemma get_None_notin k m : JsMap.get k m = None -> ~ In k (JsMap.keys m).
Proof.
  unfold JsMap.get, JsMap.keys.
  induction m as [|[k0 v0] m IH]; simpl; [tauto|].
  unfold JsMap.is_key at 1; simpl.
  destruct (k0 =? k) eqn:E; simpl; [discriminate|].
  apply Z.eqb_neq in E. intros H [H1|H1]; [congruence|].
  exact (IH H H1).
Qed.

Lemma In_get k v m :
  NoDup (JsMap.keys m) -> In (k, v) m -> JsMap.get k m = Some v.
Proof.
  unfold JsMap.get, JsMap.keys.
  induction m as [|[k0 v0] m IH]; simpl; [tauto|].
  intros ND [H|H].
  - injection H as -> ->. unfold JsMap.is_key; simpl.
    rewrite Z.eqb_refl. reflexivity.
  - inversion ND as [|? ? Hn ND']; subst.
    unfold JsMap.is_key at 1; simpl.
    destruct (k0 =? k) eqn:E; simpl; [|exact (IH ND' H)].
    apply Z.eqb_eq in E; subst k0. exfalso. apply Hn.
    change k with (fst (k, v)). apply in_map. exact H.
Qed.

Lemma In_values m v : In v (JsMap.values m) <-> exists k, In (k, v) m.
Proof.
  unfold JsMap.values. rewrite in_map_iff. split.
  - intros [[k v0] [E H]]. simpl in E. subst v0. eauto.
  - intros [k H]. exists (k, v). auto.
Qed.

Lemma In_remove k' v k m :
  In (k', v) (JsMap.remove k m) <-> k' <> k /\ In (k', v) m.
Proof.
  unfold JsMap.remove. rewrite filter_In. unfold JsMap.is_key; simpl.
  rewrite negb_true_iff, Z.eqb_neq. tauto.
Qed.

Lemma In_remove_all k' v ks m :
  In (k', v) (remove_all ks m) <-> ~ In k' ks /\ In (k', v) m.
Proof.
  unfold remove_all. revert m.
  induction ks as [|k ks IH]; intros m; simpl; [tauto|].
  rewrite IH, In_remove. intuition congruence.
Qed.

Lemma remove_absent k m : JsMap.get k m = None -> JsMap.remove k m = m.
Proof.
  unfold JsMap.get, JsMap.remove.
  induction m as [|[k0 v0] m IH]; simpl; [reflexivity|].
  unfold JsMap.is_key at 1 3; simpl.
  destruct (k0 =? k); simpl; [discriminate|].
  intros H. rewrite (IH H). reflexivity.
Qed.

Lemma keys_set k v m :
  JsMap.keys (JsMap.set k v m) =
  if JsMap.has k m then JsMap.keys m else JsMap.keys m ++ [k].
Proof.
  unfold JsMap.keys, JsMap.has.
  induction m as [|[k0 v0] m IH]; simpl; [reflexivity|].
  unfold JsMap.is_key at 1; simpl.
  destruct (k0 =? k) eqn:E; simpl.
  - apply Z.eqb_eq in E. subst. reflexivity.
  - rewrite IH. destruct (existsb (JsMap.is_key k) m); reflexivity.
Qed.

Lemma NoDup_keys_set k v m :
  NoDup (JsMap.keys m) -> NoDup (JsMap.keys (JsMap.set k v m)).
Proof.
  intros ND. rewrite keys_set, has_get.
  destruct (JsMap.get k m) eqn:G; [exact ND|].
  apply get_None_notin in G.
  apply NoDup_app; [exact ND|repeat constructor; simpl; tauto|].
  intros x Hx [<-|[]]. exact (G Hx).
Qed.

Lemma NoDup_keys_remove k m :
  NoDup (JsMap.keys m) -> NoDup (JsMap.keys (JsMap.remove k m)).
Proof.
  unfold JsMap.keys, JsMap.remove.
  induction m as [|[k0 v0] m IH]; simpl; [auto|].
  intros ND. inversion ND as [|? ? Hn ND']; subst.
  destruct (negb (JsMap.is_key k (k0, v0))); simpl; [|auto].
  constructor; [|auto].
  rewrite in_map_iff in *. intros [p [E Hp]]. apply Hn.
  exists p. split; [exact E|]. apply filter_In in Hp. tauto.
Qed.

Lemma NoDup_keys_remove_all ks m :
  NoDup (JsMap.keys m) -> NoDup (JsMap.keys (remove_all ks m)).
Proof.
  unfold remove_all. revert m.
  induction ks as [|k ks IH]; intros m ND; simpl; [exact ND|].
  apply IH, NoDup_keys_remove, ND.
Qed.

End JsMapFacts.

(* ------------------------------------------------------------------ *)
(** ** What each method does to the store *)

Lemma updateEntry_eq id p st :
  updateEntry id p st =
  match JsMap.get id (entries st) with
  | Some e =>
      (Some (merge_entry e p),
       with_entries (JsMap.set id (merge_entry e p)) (entryIdCounter st) st)
  | None => (None, st)
  end.
Proof.
  unfold updateEntry, bind, gets, getEntryById; simpl.
  destruct (JsMap.get id (entries st)); reflexivity.
Qed.

Lemma updateContact_eq id p st :
  updateContact id p st =
  match JsMap.get id (contacts st) with
  | Some c =>
      (Some (merge_contact c p),
       with_contacts (JsMap.set id (merge_contact c p))
         (contactIdCounter st) st)
  | None => (None, st)
  end.
Proof.
  unfold updateContact, bind, gets, getContactById; simpl.
  destruct (JsMap.get id (contacts st)); reflexivity.
Qed.

Lemma updateSchedule_eq id p st :
  updateSchedule id p st =
  match JsMap.get id (schedules st) with
  | Some s =>
      (Some (merge_schedule s p),
       with_schedules (JsMap.set id (merge_schedule s p))
         (scheduleIdCounter st) st)
  | None => (None, st)
  end.
Proof.
  unfold updateSchedule, bind, gets, getScheduleById; simpl.
  destruct (JsMap.get id (schedules st)); reflexivity.
Qed.

Lemma forEach_delete l st :
  forEach l (fun s => delete_schedule_key (Schedule.id s)) st =
  (tt, with_schedules (remove_all (map Schedule.id l))
         (scheduleIdCounter st) st).
Proof.
  revert st. induction l as [|s l IH]; intros st.
  - destruct st; reflexivity.
  - simpl. unfold bind at 1. unfold delete_schedule_key at 1.
    unfold bind, gets, modify. rewrite IH. reflexivity.
Qed.

Lemma deleteEntry_eq id st :
  deleteEntry id st =
  (JsMap.has id (entries st),
   mkStore (users st) (categories st) (JsMap.remove id (entries st))
     (contacts st) (remove_all (cascade_ids id st) (schedules st))
     (userIdCounter st) (categoryIdCounter st) (entryIdCounter st)
     (contactIdCounter st) (scheduleIdCounter st)).
Proof.
  unfold deleteEntry, bind, gets, modify; simpl.
  rewrite forEach_delete. reflexivity.
Qed.

Lemma createSchedule_eq ins now st :
  createSchedule ins now st =
  let id := scheduleIdCounter st in
  let schedule :=
    Schedule.mk id (InsertSchedule.entryId ins) (InsertSchedule.contactId ins)
      (InsertSchedule.deliveryDate ins) (Some "pending"%string)
      (InsertSchedule.reminderEnabled ins) (Some now) in
  let st1 := with_schedules (JsMap.set id schedule) (id + 1) st in
  (schedule,
   match getEntryById' (InsertSchedule.entryId ins) st with
   | Some e => snd (updateEntry (Entry.id e) (set_visibility scheduled) st1)
   | None => st1
   end).
Proof.
  unfold createSchedule, bind, gets, modify; simpl.
  replace (getEntryById' (InsertSchedule.entryId ins)
             (with_schedules _ _ st))
    with (getEntryById' (InsertSchedule.entryId ins) st)
    by (destruct (InsertSchedule.entryId ins); reflexivity).
  destruct (getEntryById' (InsertSchedule.entryId ins) st); [|reflexivity].
  match goal with |- context [updateEntry ?a ?b ?c] =>
    destruct (updateEntry a b c) end.
  reflexivity.
Qed.

Lemma deleteSchedule_eq id st :
  deleteSchedule id st =
  let st1 :=
    match JsMap.get id (schedules st) with
    | Some s =>
        match getEntryById' (Schedule.entryId s) st with
        | Some e => snd (updateEntry (Entry.id e) (set_visibility private) st)
        | None => st
        end
    | None => st
    end in
  (JsMap.has id (schedules st),
   with_schedules (JsMap.remove id) (scheduleIdCounter st) st1).
Proof.
  unfold deleteSchedule, delete_schedule_key, bind, gets, modify,
    getScheduleById; simpl.
  destruct (JsMap.get id (schedules st)) as [s|]; [|reflexivity].
  destruct (getEntryById' (Schedule.entryId s) st) as [e|]; [|reflexivity].
  rewrite updateEntry_eq.
  destruct (JsMap.get (Entry.id e) (entries st)); reflexivity.
Qed.

(* ------------------------------------------------------------------ *)
(** ** The end-to-end scenarios of the specification, run on the model *)

(** Scenario 1: the seeded store lists the three categories, in order. *)
Example scenario1 :
  map Category.name (getCategories 1 storage)
  = ["Personal"; "Work"; "Ideas"]%string /\
  option_map User.username (getUser 1 storage) = Some "demo"%string /\
  option_map User.id (getUserByUsername "demo" storage) = Some 1 /\
  map Contact.name (getContacts 1 storage)
  = ["Myself"; "Mom"; "Partner"]%string.
Proof. repeat split. Qed.

(** Scenario 2: the first entry gets id 1, is "private", has no category. *)
Example scenario2 :
  first_entry =
  Entry.mk 1 (Some 1) "Hi" (Some "hello"%string) None text (Some private)
    None None (Some 5).
Proof. reflexivity. Qed.

(** Scenarios 3 and 4: a schedule makes entry 1 "scheduled"; its deletion
    makes it "private" again and empties [getScheduledEntries]. *)
Example scenario3_4 :
  let st3 := step one_entry_store (CreateSchedule (a_schedule 1 2) 6) in
  let st4 := step st3 (DeleteSchedule 1) in
  option_map Entry.visibility (getEntryById 1 st3) = Some (Some scheduled) /\
  option_map Entry.visibility (getEntryById 1 st4) = Some (Some private) /\
  List.length (getScheduledEntries 1 st3) = 1%nat /\
  getScheduledEntries 1 st4 = [] /\
  map Schedule.id (getSchedules 1 st3) = [1].
Proof. repeat split. Qed.

(** Scenario 5: entry 2 is created and deleted; a second deletion returns
    [false]. *)
Example scenario5 :
  let st :=
    run [CreateEntry (an_entry None) 6; DeleteEntry 2] one_entry_store in
  getEntryById 2 st = None /\ fst (deleteEntry 2 st) = false.
Proof. split; reflexivity. Qed.

(* ------------------------------------------------------------------ *)
(** ** Schedule updates and deletions of absent records *)

(** C7.  [updateSchedule(id, partial)] leaves the map of entries as it was,
    whatever the id and the partial: no entry, and so no visibility, is
    touched by an update of a schedule. *)
Theorem updateSchedule_keeps_entries :
  forall id p st,
    entries (snd (updateSchedule id p st)) = entries st /\
    forall i, getEntryById i (snd (updateSchedule id p st)) =
              getEntryById i st.
Proof.
  intros id p st. rewrite updateSchedule_eq.
  destruct (JsMap.get id (schedules st)); simpl; split; reflexivity.
Qed.

(** C8.  [deleteEntry(id)] is a total function of the store, so it raises
    nothing; it returns [false] when no entry has the id, and a second call
    in a row always returns [false]. *)
Theorem deleteEntry_absent :
  forall id st,
    (getEntryById id st = None -> fst (deleteEntry id st) = false) /\
    fst (deleteEntry id (snd (deleteEntry id st))) = false.
Proof.
  intros id st. rewrite !deleteEntry_eq; simpl. split.
  - unfold getEntryById. intros H. rewrite has_get, H. reflexivity.
  - rewrite has_get, get_remove, Z.eqb_refl. reflexivity.
Qed.

Lemma deleteEntry_absent_witness :
  fst (deleteEntry 7 storage) = false /\
  fst (deleteEntry 7 (snd (deleteEntry 7 storage))) = false.
Proof.
  split.
  - apply (proj1 (deleteEntry_absent 7 storage)). reflexivity.
  - apply (proj2 (deleteEntry_absent 7 storage)).
Defined.

(** C9.  [deleteSchedule(id)] for an id that no schedule has returns
    [false] and hands back the very same store. *)
Theorem deleteSchedule_absent :
  forall id st,
    getScheduleById id st = None -> deleteSchedule id st = (false, st).
Proof.
  intros id st H. unfold getScheduleById in H.
  rewrite deleteSchedule_eq, has_get, H. simpl.
  unfold with_schedules. rewrite (remove_absent _ _ H).
  destruct st; reflexivity.
Qed.

Lemma deleteSchedule_absent_witness :
  deleteSchedule 1 storage = (false, storage).
Proof.
  apply (deleteSchedule_absent 1 storage). reflexivity.
Defined.

(** C10.  The entry that [createEntry] stores and returns has [userId] 1
    when the insert carries no [userId] or carries 0, and the supplied
    [userId] when that is a number other than 0. *)
Theorem createEntry_default_userId :
  forall ins now st,
    let entry := fst (createEntry ins now st) in
    getEntryById (Entry.id entry) (snd (createEntry ins now st)) = Some entry /\
    (InsertEntry.userId ins = None \/ InsertEntry.userId ins = Some 0 ->
     Entry.userId entry = Some 1) /\
    (forall u, InsertEntry.userId ins = Some u -> u <> 0 ->
     Entry.userId entry = Some u).
Proof.
  intros ins now st. simpl. split; [|split].
  - unfold getEntryById; simpl. rewrite get_set, Z.eqb_refl. reflexivity.
  - intros [H|H]; rewrite H; reflexivity.
  - intros u H Hu. rewrite H. destruct u; [congruence|reflexivity..].
Qed.

Lemma createEntry_default_userId_witness :
  Entry.userId
    (fst (createEntry
            (InsertEntry.mk (Some 0) "Hi" None None text None None None)
            5 storage)) = Some 1.
Proof.
  apply (proj1 (proj2 (createEntry_default_userId
    (InsertEntry.mk (Some 0) "Hi" None None text None None None) 5 storage))).
  right. reflexivity.
Defined.

(* ------------------------------------------------------------------ *)
(** ** The schedule coordinator on one entry *)

Lemma updateEntry_visibility e v st :
  getEntryById (Entry.id e) st = Some e ->
  snd (updateEntry (Entry.id e) (set_visibility v) st) =
  with_entries (JsMap.set (Entry.id e) (merge_entry e (set_visibility v)))
    (entryIdCounter st) st.
Proof.
  unfold getEntryById. intros H. rewrite updateEntry_eq, H. reflexivity.
Qed.

(** C2, amended.  When the store holds the entry [e] under [e.id] and [e] is
    "private", the store after [createSchedule] for [e.id] holds under
    [e.id] an entry that is "scheduled", and the store after a
    [deleteSchedule] of the schedule just created holds under [e.id] an entry
    that is "private" again. *)
Theorem schedule_syncs_visibility :
  forall e ins now st,
    getEntryById (Entry.id e) st = Some e ->
    Entry.visibility e = Some private ->
    InsertSchedule.entryId ins = Some (Entry.id e) ->
    let (s, st1) := createSchedule ins now st in
    (exists e1, getEntryById (Entry.id e) st1 = Some e1 /\
                Entry.visibility e1 = Some scheduled) /\
    (exists e2, getEntryById (Entry.id e)
                  (snd (deleteSchedule (Schedule.id s) st1)) = Some e2 /\
                Entry.visibility e2 = Some private).
Proof.
  intros e ins now st He _ Hins.
  rewrite createSchedule_eq; cbv zeta.
  rewrite Hins; simpl getEntryById'. rewrite He.
  set (s := Schedule.mk _ _ _ _ _ _ _).
  set (st1 := with_schedules _ _ st).
  assert (He1 : getEntryById (Entry.id e) st1 = Some e) by exact He.
  rewrite (updateEntry_visibility e scheduled st1 He1).
  set (e1 := merge_entry e (set_visibility scheduled)).
  set (st2 := with_entries _ _ st1).
  assert (G2 : getEntryById (Entry.id e) st2 = Some e1).
  { unfold getEntryById, st2; simpl. rewrite get_set, Z.eqb_refl.
    reflexivity. }
  split.
  - exists e1. split; [exact G2|reflexivity].
  - rewrite deleteSchedule_eq; cbv zeta.
    assert (Gs : JsMap.get (Schedule.id s) (schedules st2) = Some s).
    { unfold st2, st1; simpl. rewrite get_set, Z.eqb_refl. reflexivity. }
    rewrite Gs. change (Schedule.entryId s) with (Some (Entry.id e)).
    simpl getEntryById'. rewrite G2.
    rewrite (updateEntry_visibility e1 private st2 G2).
    change (Entry.id e1) with (Entry.id e).
    exists (merge_entry e1 (set_visibility private)). split; [|reflexivity].
    unfold getEntryById; simpl. rewrite get_set, Z.eqb_refl. reflexivity.
Qed.

Lemma schedule_syncs_visibility_witness :
  let (s, st1) := createSchedule (a_schedule 1 2) 6 one_entry_store in
  (exists e1, getEntryById 1 st1 = Some e1 /\
              Entry.visibility e1 = Some scheduled) /\
  (exists e2, getEntryById 1 (snd (deleteSchedule (Schedule.id s) st1))
              = Some e2 /\
              Entry.visibility e2 = Some private).
Proof.
  apply (schedule_syncs_visibility first_entry (a_schedule 1 2) 6
           one_entry_store); reflexivity.
Defined.

(** C2 as the specification words it, for every entry that is in the store,
    fails: after [PATCH /api/entries/1] with the body [{"id": 5}] the private
    entry sits under key 1 with [id] 5; [createSchedule] for [entryId] 5
    looks up key 5, finds nothing and updates nothing, and [getEntryById(5)]
    returns no record. *)
Lemma schedule_misses_id_patched_entry :
  reachable id_patched_store /\
  In id_patched_entry (JsMap.values (entries id_patched_store)) /\
  Entry.visibility id_patched_entry = Some private /\
  InsertSchedule.entryId (a_schedule 5 2) = Some (Entry.id id_patched_entry) /\
  getEntryById (Entry.id id_patched_entry)
    (snd (createSchedule (a_schedule 5 2) 6 id_patched_store)) = None /\
  In id_patched_entry
    (JsMap.values
       (entries (snd (createSchedule (a_schedule 5 2) 6 id_patched_store)))).
Proof.
  split; [eexists; reflexivity|].
  split; [vm_compute; left; reflexivity|].
  split; [reflexivity|]. split; [reflexivity|]. split; [reflexivity|].
  vm_compute. left. reflexivity.
Qed.

(* ------------------------------------------------------------------ *)
(** ** The query composer *)

Lemma push_loop st l acc :
  fold_left
    (fun result entry =>
       let schedule := getSchedulesByEntryId (Entry.id entry) st in
       let contact :=
         match schedule with
         | Some s => getContactById' (Schedule.contactId s) st
         | None => None
         end in
       result ++
       [ {| EntryWithSchedule.entry := entry;
            EntryWithSchedule.schedule :=
              match schedule with
              | Some s =>
                  Some {| ScheduleWithContact.schedule := s;
                          ScheduleWithContact.contact := contact |}
              | None => None
              end |} ])
    l acc
  = acc ++ map (view_of st) l.
Proof.
  revert acc. induction l as [|e l IH]; intros acc; simpl.
  - rewrite app_nil_r. reflexivity.
  - rewrite IH, <- app_assoc. simpl. unfold view_of at 2.
    destruct (getSchedulesByEntryId (Entry.id e) st); reflexivity.
Qed.

Lemma getEntriesWithSchedules_map u st :
  getEntriesWithSchedules u st = map (view_of st) (getEntries u st).
Proof.
  unfold getEntriesWithSchedules. cbv zeta. apply push_loop.
Qed.

Lemma refers_to_iff i s :
  refers_to i s = true <-> Schedule.entryId s = Some i.
Proof.
  unfold refers_to. destruct (Schedule.entryId s) as [e|].
  - rewrite Z.eqb_eq. split; congruence.
  - split; discriminate.
Qed.

Lemma owned_by_iff u e : owned_by u e = true <-> Entry.userId e = Some u.
Proof.
  unfold owned_by. destruct (Entry.userId e) as [o|].
  - rewrite Z.eqb_eq. split; congruence.
  - split; discriminate.
Qed.

Lemma find_split {A} (f : A -> bool) l x :
  find f l = Some x ->
  f x = true /\
  exists before after,
    l = before ++ x :: after /\ forall y, In y before -> f y = false.
Proof.
  induction l as [|a l IH]; simpl; [discriminate|].
  destruct (f a) eqn:Fa.
  - intros [= <-]. split; [exact Fa|]. exists [], l. split; [reflexivity|].
    intros y [].
  - intros H. destruct (IH H) as (Hx & before & after & -> & Hb).
    split; [exact Hx|]. exists (a :: before), after.
    split; [reflexivity|]. intros y [<-|Hy]; [exact Fa|exact (Hb y Hy)].
Qed.

Lemma view_of_spec st e :
  let r := view_of st e in
  (EntryWithSchedule.schedule r = None ->
   forall s, In s (JsMap.values (schedules st)) ->
             Schedule.entryId s <> Some (Entry.id e)) /\
  (forall sw, EntryWithSchedule.schedule r = Some sw ->
     (exists before after,
        JsMap.values (schedules st)
        = before ++ ScheduleWithContact.schedule sw :: after /\
        forall s, In s before -> Schedule.entryId s <> Some (Entry.id e)) /\
     Schedule.entryId (ScheduleWithContact.schedule sw) = Some (Entry.id e) /\
     (forall c, ScheduleWithContact.contact sw = Some c ->
        exists k,
          Schedule.contactId (ScheduleWithContact.schedule sw) = Some k /\
          In (k, c) (contacts st)) /\
     (ScheduleWithContact.contact sw = None ->
      forall k c,
        Schedule.contactId (ScheduleWithContact.schedule sw) = Some k ->
        ~ In (k, c) (contacts st))).
Proof.
  cbv zeta. unfold view_of; simpl. unfold getSchedulesByEntryId.
  destruct (find (refers_to (Entry.id e)) (JsMap.values (schedules st)))
    as [s|] eqn:F; simpl.
  - split; [discriminate|]. intros sw [= <-]. simpl.
    destruct (find_split _ _ _ F) as (Hs & before & after & Hl & Hb).
    split; [|split; [|split]].
    + exists before, after. split; [exact Hl|].
      intros s' Hs' E. apply refers_to_iff in E.
      rewrite (Hb s' Hs') in E. discriminate.
    + apply refers_to_iff, Hs.
    + intros c Hc. destruct (Schedule.contactId s) as [k|]; [|discriminate].
      exists k. split; [reflexivity|]. apply get_In, Hc.
    + intros Hc k c Hk Hin. rewrite Hk in Hc. simpl in Hc.
      apply get_None_notin in Hc. apply Hc. unfold JsMap.keys.
      change k with (fst (k, c)). apply in_map, Hin.
  - split; [|discriminate]. intros _ s Hs E. apply refers_to_iff in E.
    rewrite (find_none _ _ F s Hs) in E. discriminate.
Qed.

(** C6.  [getEntriesWithSchedules(userId)] is a total function, so the call
    always succeeds.  Its records, read for their entry, are the list
    [getEntries(userId)], which is the list of the stored entries whose
    [userId] is the user, in the order of the store: one record per entry
    of the user.  A record embeds no schedule only when no stored schedule
    has the entry's id as [entryId]; otherwise it embeds the first stored
    schedule that has, which is what [getSchedulesByEntryId] finds.  The
    contact embedded in that schedule is the contact stored under its
    [contactId], and it is absent when no contact is stored under it. *)
Theorem getEntriesWithSchedules_view :
  forall u st,
    map EntryWithSchedule.entry (getEntriesWithSchedules u st)
    = getEntries u st /\
    (forall f,
       (forall e, f e = true <-> Entry.userId e = Some u) ->
       map EntryWithSchedule.entry (getEntriesWithSchedules u st)
       = filter f (JsMap.values (entries st))) /\
    Forall
      (fun r =>
         option_map ScheduleWithContact.schedule (EntryWithSchedule.schedule r)
         = getSchedulesByEntryId (Entry.id (EntryWithSchedule.entry r)) st /\
         (EntryWithSchedule.schedule r = None ->
          forall s, In s (JsMap.values (schedules st)) ->
            Schedule.entryId s <> Some (Entry.id (EntryWithSchedule.entry r)))
         /\
         forall sw, EntryWithSchedule.schedule r = Some sw ->
           (exists before after,
              JsMap.values (schedules st)
              = before ++ ScheduleWithContact.schedule sw :: after /\
              forall s, In s before ->
                Schedule.entryId s
                <> Some (Entry.id (EntryWithSchedule.entry r))) /\
           Schedule.entryId (ScheduleWithContact.schedule sw)
           = Some (Entry.id (EntryWithSchedule.entry r)) /\
           ScheduleWithContact.contact sw =
           getContactById'
             (Schedule.contactId (ScheduleWithContact.schedule sw)) st /\
           (getContactById'
              (Schedule.contactId (ScheduleWithContact.schedule sw)) st = None
            -> ScheduleWithContact.contact sw = None) /\
           (forall c, ScheduleWithContact.contact sw = Some c ->
              exists k,
                Schedule.contactId (ScheduleWithContact.schedule sw) = Some k
                /\ In (k, c) (contacts st)) /\
           (ScheduleWithContact.contact sw = None ->
            forall k c,
              Schedule.contactId (ScheduleWithContact.schedule sw) = Some k ->
              ~ In (k, c) (contacts st)))
      (getEntriesWithSchedules u st).
Proof.
  intros u st. rewrite getEntriesWithSchedules_map.
  assert (Hm : map EntryWithSchedule.entry (map (view_of st) (getEntries u st))
               = getEntries u st).
  { rewrite map_map. simpl. apply map_id. }
  split; [exact Hm|]. split.
  - intros f Hf. rewrite Hm. unfold getEntries. apply filter_ext.
    intros e. apply eq_true_iff_eq. rewrite owned_by_iff, Hf. tauto.
  - apply Forall_forall. intros r Hr. apply in_map_iff in Hr.
    destruct Hr as [e [<- _]].
    destruct (view_of_spec st e) as [Hnone Hsome].
    change (EntryWithSchedule.entry (view_of st e)) with e.
    split; [|split; [exact Hnone|]].
    + unfold view_of; simpl.
      destruct (getSchedulesByEntryId (Entry.id e) st); reflexivity.
    + intros sw Hsw.
      destruct (Hsome sw Hsw) as (H1 & H2 & H3 & H4).
      split; [exact H1|]. split; [exact H2|].
      assert (Hc : ScheduleWithContact.contact sw =
                   getContactById'
                     (Schedule.contactId (ScheduleWithContact.schedule sw))
                     st).
      { unfold view_of in Hsw; simpl in Hsw.
        destruct (getSchedulesByEntryId (Entry.id e) st); [|discriminate].
        simpl in Hsw. injection Hsw as <-. reflexivity. }
      split; [exact Hc|]. split; [congruence|]. split; assumption.
Qed.

Lemma getEntriesWithSchedules_view_witness :
  map EntryWithSchedule.entry (getEntriesWithSchedules 1 scenario6)
  = getEntries 1 scenario6.
Proof.
  exact (proj1 (getEntriesWithSchedules_view 1 scenario6)).
Defined.

(** Scenario 6: the first record has no schedule, the second embeds its
    schedule and the contact 2 of that schedule. *)
Example scenario6_view :
  map (fun r =>
         (Entry.id (EntryWithSchedule.entry r),
          option_map
            (fun sw =>
               (Schedule.id (ScheduleWithContact.schedule sw),
                option_map Contact.name (ScheduleWithContact.contact sw)))
            (EntryWithSchedule.schedule r)))
    (getEntriesWithSchedules 1 scenario6)
  = [(1, None); (2, Some (1, Some "Mom"%string))].
Proof. reflexivity. Qed.

(** A schedule whose contact was deleted is embedded without a contact. *)
Example deleted_contact_view :
  map (fun r =>
         option_map ScheduleWithContact.contact (EntryWithSchedule.schedule r))
    (getEntriesWithSchedules 1 (step scenario6 (DeleteContact 2)))
  = [None; Some None].
Proof. reflexivity. Qed.

(* ------------------------------------------------------------------ *)
(** ** Id counters *)

Lemma bind_ret_map {A B} (m : M A) (f : A -> B) st :
  bind m (fun r => ret (f r)) st = (f (fst (m st)), snd (m st)).
Proof. unfold bind, ret. destruct (m st); reflexivity. Qed.

Lemma updateEntry_counter k id p st :
  counter k (snd (updateEntry id p st)) = counter k st.
Proof.
  rewrite updateEntry_eq.
  destruct (JsMap.get id (entries st)); destruct k; reflexivity.
Qed.

Lemma call_counter k op st :
  counter k (snd (call op st)) =
    (if creates k op then counter k st + 1 else counter k st) /\
  created_id k (fst (call op st)) =
    (if creates k op then Some (counter k st) else None).
Proof.
  destruct op; unfold call; rewrite bind_ret_map; simpl fst; simpl snd.
  1-4, 7, 9: destruct k; split; reflexivity.
  - rewrite updateEntry_counter. destruct k; split; reflexivity.
  - rewrite deleteEntry_eq. destruct k; split; reflexivity.
  - rewrite updateContact_eq.
    destruct (JsMap.get id (contacts st)); destruct k; split; reflexivity.
  - rewrite createSchedule_eq; cbv zeta; simpl fst; simpl snd.
    destruct (getEntryById' (InsertSchedule.entryId insertSchedule) st);
      [rewrite updateEntry_counter|]; destruct k; split; reflexivity.
  - rewrite updateSchedule_eq.
    destruct (JsMap.get id (schedules st)); destruct k; split; reflexivity.
  - rewrite deleteSchedule_eq; cbv zeta; simpl fst; simpl snd.
    assert (H : forall st1, counter k st1 = counter k st ->
              counter k (with_schedules (JsMap.remove id)
                           (scheduleIdCounter st) st1) = counter k st)
      by (intros st1; destruct k; simpl; auto).
    rewrite H; [destruct k; split; reflexivity|].
    destruct (JsMap.get id (schedules st)) as [s|]; [|reflexivity].
    destruct (getEntryById' (Schedule.entryId s) st); [|reflexivity].
    apply updateEntry_counter.
Qed.

Lemma created_ids_from k ops :
  forall st,
    Forall (fun i => counter k st <= i) (created_ids k ops st) /\
    StronglySorted Z.lt (created_ids k ops st).
Proof.
  induction ops as [|op ops IH]; intros st; simpl.
  - split; constructor.
  - destruct (call_counter k op st) as [Hc Hr].
    destruct (call op st) as [r st'] eqn:E; simpl in Hc, Hr.
    destruct (IH st') as [Hall Hsorted].
    rewrite Hr. destruct (creates k op).
    + rewrite Hc in Hall. split.
      * constructor; [lia|].
        eapply Forall_impl; [|exact Hall]. simpl; intros; lia.
      * constructor; [exact Hsorted|].
        eapply Forall_impl; [|exact Hall]. simpl; intros; lia.
    + rewrite Hc in Hall. split; assumption.
Qed.

Lemma sorted_lt_NoDup l : StronglySorted Z.lt l -> NoDup l.
Proof.
  induction 1 as [|x l Hs IH Hx]; constructor; [|exact IH].
  intros Hin. rewrite Forall_forall in Hx. specialize (Hx x Hin). lia.
Qed.

(** C4.  Along any run of calls from the seeded store (creations and
    deletions of one type of record, interleaved with any other calls),
    the ids that the [create] calls of one type return are positive and
    strictly increasing, so none of them comes back a second time. *)
Theorem created_ids_increasing :
  forall k ops,
    Forall (fun i => 0 < i) (created_ids k ops storage) /\
    StronglySorted Z.lt (created_ids k ops storage) /\
    NoDup (created_ids k ops storage).
Proof.
  intros k ops. destruct (created_ids_from k ops storage) as [Hall Hs].
  split; [|split].
  - eapply Forall_impl; [|exact Hall]. simpl. intros i Hi.
    assert (0 < counter k storage) by (destruct k; reflexivity). lia.
  - exact Hs.
  - apply sorted_lt_NoDup, Hs.
Qed.

(** Entry 1 is deleted before the next entry is created: the new id is 2. *)
Example ids_not_reused :
  created_ids KEntry
    [CreateEntry (an_entry None) 5; DeleteEntry 1;
     CreateEntry (an_entry None) 6] storage = [1; 2].
Proof. reflexivity. Qed.

(* ------------------------------------------------------------------ *)
(** ** The cascade of [deleteEntry] *)

Lemma keyed_by_id_In st :
  schedules_keyed_by_id st = true <->
  forall k s, In (k, s) (schedules st) -> Schedule.id s = k.
Proof.
  unfold schedules_keyed_by_id. rewrite forallb_forall. split.
  - intros H k s Hin. apply Z.eqb_eq. exact (H (k, s) Hin).
  - intros H [k s] Hin. apply Z.eqb_eq. exact (H k s Hin).
Qed.

Lemma In_cascade_ids s e st :
  In s (JsMap.values (schedules st)) -> Schedule.entryId s = Some e ->
  In (Schedule.id s) (cascade_ids e st).
Proof.
  intros Hin He. unfold cascade_ids. apply in_map.
  apply filter_In. split; [exact Hin|]. apply refers_to_iff, He.
Qed.

Lemma In_set_inv {V} k' (v' : V) k v m :
  In (k', v') (JsMap.set k v m) -> (k', v') = (k, v) \/ In (k', v') m.
Proof.
  induction m as [|[k0 v0] m IH]; simpl.
  - intros [H|[]]. left. congruence.
  - destruct (k0 =? k); simpl; intros [H|H]; auto.
    destruct (IH H); auto.
Qed.

(** X26.  In a store where every schedule sits under its own id,
    [deleteEntry(e)] leaves no schedule that points to [e].  In any store, a
    schedule [s] that pointed to [e] before the call cannot be found under
    [s.id] after it. *)
Theorem deleteEntry_cascade :
  forall e st,
    (schedules_keyed_by_id st = true -> cascade_complete e st) /\
    forall s, In s (JsMap.values (schedules st)) ->
              Schedule.entryId s = Some e ->
              getScheduleById (Schedule.id s) (snd (deleteEntry e st)) = None.
Proof.
  intros e st. unfold cascade_complete, getScheduleById.
  rewrite deleteEntry_eq; simpl. split.
  - intros Hk. rewrite keyed_by_id_In in Hk.
    intros s Hs He. apply In_values in Hs. destruct Hs as [k Hs].
    apply In_remove_all in Hs. destruct Hs as [Hn Hin].
    apply Hn. rewrite <- (Hk k s Hin).
    apply In_cascade_ids; [|exact He].
    apply In_values. exists k. exact Hin.
  - intros s Hs He. rewrite get_remove_all.
    destruct (existsb (Z.eqb (Schedule.id s)) (cascade_ids e st)) eqn:E;
      [reflexivity|].
    exfalso. apply (In_cascade_ids s e st Hs) in He.
    rewrite <- not_true_iff_false in E. apply E.
    apply existsb_exists. exists (Schedule.id s). split; [exact He|].
    apply Z.eqb_refl.
Qed.

Lemma deleteEntry_cascade_witness : cascade_complete 2 scenario6.
Proof.
  apply (proj1 (deleteEntry_cascade 2 scenario6)). reflexivity.
Defined.

(** C3.  The cascade of [deleteEntry] misses a schedule whose [id] is not
    its key.  After [PATCH /api/schedules/1] with the body [{"id": 2}] the
    schedule of entry 1 sits under key 1 with [id] 2; [deleteEntry(1)] selects
    it, deletes key 2 and removes the entry: the schedule is still under
    key 1, pointing to entry 1, which is gone. *)
Lemma deleteEntry_cascade_incomplete :
  reachable renumbered_store /\
  ~ cascade_complete 1 renumbered_store /\
  getScheduleById 1 (snd (deleteEntry 1 renumbered_store))
  = Some (Schedule.mk 2 (Some 1) (Some 2) 2000 (Some "pending"%string) None
            (Some 6)) /\
  getEntryById 1 (snd (deleteEntry 1 renumbered_store)) = None.
Proof.
  split; [eexists; reflexivity|]. split; [|split; reflexivity].
  intros H.
  apply (H (Schedule.mk 2 (Some 1) (Some 2) 2000 (Some "pending"%string)
              None (Some 6))).
  - vm_compute. left. reflexivity.
  - reflexivity.
Qed.

(** The same slip deletes the schedule of another entry: in [crossed_store]
    the schedule of entry 1 has [id] 2, the key of the schedule of entry 2,
    and [deleteEntry(1)] removes the latter and keeps the former. *)
Example deleteEntry_deletes_other_schedule :
  option_map Schedule.entryId (getScheduleById 2 crossed_store)
  = Some (Some 2) /\
  getScheduleById 2 (snd (deleteEntry 1 crossed_store)) = None /\
  option_map Schedule.entryId
    (getScheduleById 1 (snd (deleteEntry 1 crossed_store))) = Some (Some 1) /\
  option_map Entry.visibility
    (getEntryById 2 (snd (deleteEntry 1 crossed_store)))
  = Some (Some scheduled).
Proof. repeat split. Qed.

(** The store keeps every schedule under its own id along any run that has
    no [updateSchedule] with an [id] in its partial. *)
Lemma step_keeps_schedule_ids st op :
  keeps_schedule_ids op = true ->
  schedules_keyed_by_id st = true ->
  schedules_keyed_by_id (step st op) = true.
Proof.
  intros Hop Hst. rewrite keyed_by_id_In in *.
  unfold step. destruct op; unfold call; rewrite bind_ret_map; simpl snd.
  1-4, 7, 9: exact Hst.
  - rewrite updateEntry_eq.
    destruct (JsMap.get id (entries st)); exact Hst.
  - rewrite deleteEntry_eq; simpl. intros k s H.
    apply In_remove_all in H. apply Hst, H.
  - rewrite updateContact_eq.
    destruct (JsMap.get id (contacts st)); exact Hst.
  - rewrite createSchedule_eq; cbv zeta; simpl snd.
    assert (H1 : forall k s,
      In (k, s) (JsMap.set (scheduleIdCounter st)
        (Schedule.mk (scheduleIdCounter st)
           (InsertSchedule.entryId insertSchedule)
           (InsertSchedule.contactId insertSchedule)
           (InsertSchedule.deliveryDate insertSchedule)
           (Some "pending"%string)
           (InsertSchedule.reminderEnabled insertSchedule) (Some now))
        (schedules st)) -> Schedule.id s = k).
    { intros k s H. apply In_set_inv in H. destruct H as [H|H].
      - injection H as E1 E2. rewrite E1, E2. reflexivity.
      - apply Hst, H. }
    destruct (getEntryById' (InsertSchedule.entryId insertSchedule) st)
      as [e|]; [|exact H1].
    rewrite updateEntry_eq. simpl.
    destruct (JsMap.get (Entry.id e) (entries st)); exact H1.
  - rewrite updateSchedule_eq. simpl in Hop.
    destruct (JsMap.get id (schedules st)) as [s0|] eqn:G; [|exact Hst].
    simpl. intros k s H. apply In_set_inv in H. destruct H as [H|H].
    + injection H as E1 E2. rewrite E1, E2. unfold merge_schedule; simpl.
      destruct (PartialSchedule.id updatedSchedule); [discriminate|].
      simpl. apply Hst, get_In, G.
    + apply Hst, H.
  - rewrite deleteSchedule_eq; cbv zeta; simpl snd.
    assert (H1 : forall st1, schedules st1 = schedules st ->
      forall k s, In (k, s) (schedules (with_schedules (JsMap.remove id)
                      (scheduleIdCounter st) st1)) -> Schedule.id s = k).
    { intros st1 E k s H. simpl in H. rewrite E in H.
      apply In_remove in H. apply Hst, H. }
    apply H1.
    destruct (JsMap.get id (schedules st)) as [s0|]; [|reflexivity].
    destruct (getEntryById' (Schedule.entryId s0) st) as [e|]; [|reflexivity].
    rewrite updateEntry_eq.
    destruct (JsMap.get (Entry.id e) (entries st)); reflexivity.
Qed.

Lemma run_keeps_schedule_ids ops :
  forall st,
    forallb keeps_schedule_ids ops = true ->
    schedules_keyed_by_id st = true ->
    schedules_keyed_by_id (run ops st) = true.
Proof.
  induction ops as [|op ops IH]; intros st Hops Hst; simpl; [exact Hst|].
  simpl in Hops. apply andb_true_iff in Hops. destruct Hops as [Hop Hops].
  apply IH; [exact Hops|]. apply step_keeps_schedule_ids; assumption.
Qed.

(* ------------------------------------------------------------------ *)
(** ** Coordinated calls keep visibility in sync *)

Section CoordinatedInv.
Variables (es : JsMap.t Entry.t) (ss : JsMap.t Schedule.t) (ec sc : Z).
Hypothesis Hinv : coordinated_inv es ss ec sc.

Lemma inv_create_entry e :
  Entry.id e = ec -> Entry.visibility e <> Some scheduled ->
  coordinated_inv (JsMap.set ec e es) ss (ec + 1) sc.
Proof.
  destruct Hinv as [Ne Ns Ie Is Ise Io Iv]. intros Hid Hvis. constructor.
  - apply NoDup_keys_set, Ne.
  - exact Ns.
  - intros k e0 H. rewrite get_set in H.
    destruct (Z.eqb_spec k ec) as [->|Hk].
    + injection H as <-. split; [exact Hid|lia].
    + destruct (Ie k e0 H). split; [assumption|lia].
  - exact Is.
  - intros k s H. destruct (Ise k s H) as (i & e0 & Hi & Hg).
    exists i. rewrite get_set. destruct (i =? ec); eauto.
  - exact Io.
  - intros k e0 H. rewrite get_set in H.
    destruct (Z.eqb_spec k ec) as [->|Hk]; [|apply Iv, H].
    injection H as <-. split; [intros; contradiction|].
    intros (k' & s & Hs & He).
    destruct (Ise k' s Hs) as (i & e1 & Hi & Hg).
    rewrite He in Hi; injection Hi as <-.
    destruct (Ie _ _ Hg). lia.
Qed.

Lemma inv_update_entry id e e' :
  JsMap.get id es = Some e ->
  Entry.id e' = Entry.id e -> Entry.visibility e' = Entry.visibility e ->
  coordinated_inv (JsMap.set id e' es) ss ec sc.
Proof.
  destruct Hinv as [Ne Ns Ie Is Ise Io Iv]. intros Hg Hid Hvis. constructor.
  - apply NoDup_keys_set, Ne.
  - exact Ns.
  - intros k e0 H. rewrite get_set in H.
    destruct (Z.eqb_spec k id) as [->|Hk]; [|apply Ie, H].
    injection H as <-. rewrite Hid. apply Ie, Hg.
  - exact Is.
  - intros k s H. destruct (Ise k s H) as (i & e0 & Hi & Hg0).
    exists i. rewrite get_set. destruct (i =? id); eauto.
  - exact Io.
  - intros k e0 H. rewrite get_set in H.
    destruct (Z.eqb_spec k id) as [->|Hk]; [|apply Iv, H].
    injection H as <-. rewrite Hvis. apply Iv, Hg.
Qed.

Lemma cascade_hit id k s :
  JsMap.get k ss = Some s ->
  existsb (Z.eqb k)
    (map Schedule.id (filter (refers_to id) (JsMap.values ss))) = true <->
  Schedule.entryId s = Some id.
Proof.
  destruct Hinv as [Ne Ns Ie Is Ise Io Iv]. intros Hg.
  rewrite existsb_exists. split.
  - intros (k0 & Hin & Hk). apply Z.eqb_eq in Hk. subst k0.
    apply in_map_iff in Hin. destruct Hin as (s' & Hid & Hin).
    apply filter_In in Hin. destruct Hin as [Hin Hr].
    apply In_values in Hin. destruct Hin as [k' Hin].
    apply (In_get _ _ _ Ns) in Hin.
    destruct (Is _ _ Hin) as [Hid' _].
    assert (k' = k) by congruence. subst k'.
    assert (s' = s) by congruence. subst s'.
    apply refers_to_iff, Hr.
  - intros He. exists k. split; [|apply Z.eqb_refl].
    destruct (Is _ _ Hg) as [Hid _]. rewrite <- Hid.
    apply in_map. apply filter_In. split.
    + apply In_values. exists k. apply get_In, Hg.
    + apply refers_to_iff, He.
Qed.

Lemma get_cascade id k s :
  JsMap.get k
    (remove_all (map Schedule.id (filter (refers_to id) (JsMap.values ss)))
       ss) = Some s <->
  JsMap.get k ss = Some s /\ Schedule.entryId s <> Some id.
Proof.
  rewrite get_remove_all.
  destruct (existsb _ _) eqn:E.
  - split; [discriminate|]. intros [Hg Hn]. exfalso. apply Hn.
    apply (cascade_hit id k s Hg), E.
  - split; [|tauto]. intros Hg. split; [exact Hg|].
    intros He. apply (cascade_hit id k s Hg) in He. congruence.
Qed.

Lemma inv_delete_entry id :
  coordinated_inv (JsMap.remove id es)
    (remove_all (map Schedule.id (filter (refers_to id) (JsMap.values ss)))
       ss) ec sc.
Proof.
  pose proof get_cascade as GC.
  destruct Hinv as [Ne Ns Ie Is Ise Io Iv]. constructor.
  - apply NoDup_keys_remove, Ne.
  - apply NoDup_keys_remove_all, Ns.
  - intros k e H. rewrite get_remove in H.
    destruct (k =? id); [discriminate|]. apply Ie, H.
  - intros k s H. apply GC in H. apply Is, H.
  - intros k s H. apply GC in H. destruct H as [H Hn].
    destruct (Ise k s H) as (i & e0 & Hi & Hg0).
    exists i, e0. split; [exact Hi|]. rewrite get_remove.
    destruct (Z.eqb_spec i id) as [->|]; [contradiction|exact Hg0].
  - intros k1 s1 k2 s2 H1 H2. apply GC in H1, H2.
    apply Io; tauto.
  - intros k e H. rewrite get_remove in H.
    destruct (Z.eqb_spec k id) as [->|Hk]; [discriminate|].
    rewrite (Iv k e H). split.
    + intros (k' & s & Hs & He). exists k', s. split; [|exact He].
      apply GC. split; [exact Hs|congruence].
    + intros (k' & s & Hs & He). exists k', s. split; [|exact He].
      apply GC in Hs. tauto.
Qed.

Lemma inv_create_schedule i e s :
  JsMap.get i es = Some e ->
  (forall k s', JsMap.get k ss = Some s' -> Schedule.entryId s' <> Some i) ->
  Schedule.id s = sc -> Schedule.entryId s = Some i ->
  coordinated_inv
    (JsMap.set i (merge_entry e (set_visibility scheduled)) es)
    (JsMap.set sc s ss) ec (sc + 1).
Proof.
  destruct Hinv as [Ne Ns Ie Is Ise Io Iv].
  intros Hg Hfree Hid Hentry. constructor.
  - apply NoDup_keys_set, Ne.
  - apply NoDup_keys_set, Ns.
  - intros k e0 H. rewrite get_set in H.
    destruct (Z.eqb_spec k i) as [->|Hk]; [|apply Ie, H].
    injection H as <-. simpl. apply Ie, Hg.
  - intros k s0 H. rewrite get_set in H.
    destruct (Z.eqb_spec k sc) as [->|Hk].
    + injection H as <-. split; [exact Hid|lia].
    + destruct (Is k s0 H). split; [assumption|lia].
  - intros k s0 H. rewrite get_set in H.
    destruct (Z.eqb_spec k sc) as [->|Hk].
    + injection H as <-. exists i. rewrite get_set, Z.eqb_refl. eauto.
    + destruct (Ise k s0 H) as (i0 & e0 & Hi & Hg0).
      exists i0. rewrite get_set. destruct (i0 =? i); eauto.
  - intros k1 s1 k2 s2 H1 H2 He. rewrite get_set in H1, H2.
    destruct (Z.eqb_spec k1 sc) as [->|Hk1];
      destruct (Z.eqb_spec k2 sc) as [->|Hk2].
    + reflexivity.
    + injection H1 as <-. exfalso. apply (Hfree k2 s2 H2). congruence.
    + injection H2 as <-. exfalso. apply (Hfree k1 s1 H1). congruence.
    + exact (Io _ _ _ _ H1 H2 He).
  - intros k e0 H. rewrite get_set in H.
    destruct (Z.eqb_spec k i) as [->|Hk].
    + injection H as <-. simpl. split; [|reflexivity]. intros _.
      exists sc, s. rewrite get_set, Z.eqb_refl. auto.
    + rewrite (Iv k e0 H). split.
      * intros (k' & s0 & Hs & He). exists k', s0. split; [|exact He].
        rewrite get_set. destruct (Z.eqb_spec k' sc) as [->|]; [|exact Hs].
        destruct (Is _ _ Hs). lia.
      * intros (k' & s0 & Hs & He). rewrite get_set in Hs.
        destruct (Z.eqb_spec k' sc) as [->|]; [|eauto].
        injection Hs as <-. congruence.
Qed.

Lemma inv_update_schedule id s s' :
  JsMap.get id ss = Some s ->
  Schedule.id s' = Schedule.id s ->
  Schedule.entryId s' = Schedule.entryId s ->
  coordinated_inv es (JsMap.set id s' ss) ec sc.
Proof.
  destruct Hinv as [Ne Ns Ie Is Ise Io Iv]. intros Hg Hid Hentry.
  assert (Hold : forall k s1, JsMap.get k (JsMap.set id s' ss) = Some s1 ->
            exists s0, JsMap.get k ss = Some s0 /\
                       Schedule.id s1 = Schedule.id s0 /\
                       Schedule.entryId s1 = Schedule.entryId s0).
  { intros k s1 H. rewrite get_set in H.
    destruct (Z.eqb_spec k id) as [->|]; [|eauto].
    injection H as <-. eauto. }
  assert (Hnew : forall k s0, JsMap.get k ss = Some s0 ->
            exists s1, JsMap.get k (JsMap.set id s' ss) = Some s1 /\
                       Schedule.entryId s1 = Schedule.entryId s0).
  { intros k s0 H. rewrite get_set.
    destruct (Z.eqb_spec k id) as [->|]; [|eauto].
    exists s'. split; [reflexivity|]. congruence. }
  constructor.
  - exact Ne.
  - apply NoDup_keys_set, Ns.
  - exact Ie.
  - intros k s1 H. destruct (Hold k s1 H) as (s0 & H0 & E1 & _).
    rewrite E1. apply Is, H0.
  - intros k s1 H. destruct (Hold k s1 H) as (s0 & H0 & _ & E2).
    rewrite E2. apply (Ise k s0 H0).
  - intros k1 s1 k2 s2 H1 H2 He.
    destruct (Hold k1 s1 H1) as (a & Ha & _ & Ea).
    destruct (Hold k2 s2 H2) as (b & Hb & _ & Eb).
    apply (Io _ _ _ _ Ha Hb). congruence.
  - intros k e H. rewrite (Iv k e H). split.
    + intros (k' & s0 & Hs & He).
      destruct (Hnew k' s0 Hs) as (s1 & H1 & E1).
      exists k', s1. split; [exact H1|congruence].
    + intros (k' & s1 & Hs & He).
      destruct (Hold k' s1 Hs) as (s0 & H0 & _ & E0).
      exists k', s0. split; [exact H0|congruence].
Qed.

Lemma inv_delete_schedule id s i e :
  JsMap.get id ss = Some s ->
  Schedule.entryId s = Some i -> JsMap.get i es = Some e ->
  coordinated_inv
    (JsMap.set i (merge_entry e (set_visibility private)) es)
    (JsMap.remove id ss) ec sc.
Proof.
  destruct Hinv as [Ne Ns Ie Is Ise Io Iv]. intros Hs Hentry Hg.
  assert (Hsub : forall k s0, JsMap.get k (JsMap.remove id ss) = Some s0 ->
            k <> id /\ JsMap.get k ss = Some s0).
  { intros k s0 H. rewrite get_remove in H.
    destruct (Z.eqb_spec k id); [discriminate|tauto]. }
  constructor.
  - apply NoDup_keys_set, Ne.
  - apply NoDup_keys_remove, Ns.
  - intros k e0 H. rewrite get_set in H.
    destruct (Z.eqb_spec k i) as [->|Hk]; [|apply Ie, H].
    injection H as <-. simpl. apply Ie, Hg.
  - intros k s0 H. apply Hsub in H. apply Is, H.
  - intros k s0 H. apply Hsub in H. destruct H as [_ H].
    destruct (Ise k s0 H) as (i0 & e0 & Hi & Hg0).
    exists i0. rewrite get_set. destruct (i0 =? i); eauto.
  - intros k1 s1 k2 s2 H1 H2. apply Hsub in H1, H2.
    apply Io; tauto.
  - intros k e0 H. rewrite get_set in H.
    destruct (Z.eqb_spec k i) as [->|Hk].
    + injection H as <-. simpl. split; [discriminate|].
      intros (k' & s0 & H0 & He). apply Hsub in H0. destruct H0 as [Hn H0].
      exfalso. apply Hn. apply (Io _ _ _ _ H0 Hs). congruence.
    + rewrite (Iv k e0 H). split.
      * intros (k' & s0 & H0 & He). exists k', s0. split; [|exact He].
        rewrite get_remove. destruct (Z.eqb_spec k' id) as [->|]; [|exact H0].
        congruence.
      * intros (k' & s0 & H0 & He). apply Hsub in H0. exists k', s0. tauto.
Qed.

End CoordinatedInv.

Lemma storage_inv : store_inv storage.
Proof.
  constructor; simpl; try constructor; intros; discriminate.
Qed.

Lemma step_inv st op :
  store_inv st -> coordinated st op = true -> store_inv (step st op).
Proof.
  unfold store_inv, step. intros Hinv Hc.
  destruct op; unfold call; rewrite bind_ret_map; simpl snd.
  1-3, 7, 9: exact Hinv.
  - (* createEntry *)
    simpl. apply inv_create_entry; [exact Hinv|reflexivity|].
    simpl in *. destruct (InsertEntry.visibility insertEntry) as [[]|];
      discriminate.
  - (* updateEntry *)
    rewrite updateEntry_eq.
    destruct (JsMap.get id (entries st)) as [e|] eqn:G; [|exact Hinv].
    simpl in *.
    destruct (PartialEntry.id updatedEntry) eqn:I; [discriminate|].
    destruct (PartialEntry.visibility updatedEntry) eqn:V; [discriminate|].
    apply (inv_update_entry _ _ _ _ Hinv id e); [exact G| |];
      unfold merge_entry; simpl; [rewrite I|rewrite V]; reflexivity.
  - (* deleteEntry *)
    rewrite deleteEntry_eq. simpl. apply inv_delete_entry, Hinv.
  - (* updateContact *)
    rewrite updateContact_eq.
    destruct (JsMap.get id (contacts st)); exact Hinv.
  - (* createSchedule *)
    rewrite createSchedule_eq; cbv zeta; simpl snd. simpl in Hc.
    destruct (InsertSchedule.entryId insertSchedule) as [i|] eqn:Ei;
      [|discriminate].
    apply andb_true_iff in Hc. destruct Hc as [Hhas Hfree].
    rewrite has_get in Hhas. simpl getEntryById'. unfold getEntryById.
    destruct (JsMap.get i (entries st)) as [e|] eqn:G; [|discriminate].
    destruct (inv_entry_id _ _ _ _ Hinv i e G) as [Hid _].
    rewrite updateEntry_eq, Hid. simpl entries. rewrite G. simpl.
    apply (inv_create_schedule _ _ _ _ Hinv i e); try reflexivity;
      [exact G|].
    intros k s' Hs' He.
    destruct (getSchedulesByEntryId i st) eqn:F; [discriminate|].
    unfold getSchedulesByEntryId in F.
    assert (Hin : In s' (JsMap.values (schedules st)))
      by (apply In_values; exists k; apply get_In, Hs').
    pose proof (find_none _ _ F s' Hin) as Hr.
    apply refers_to_iff in He. congruence.
  - (* updateSchedule *)
    rewrite updateSchedule_eq.
    destruct (JsMap.get id (schedules st)) as [s|] eqn:G; [|exact Hinv].
    simpl in *.
    destruct (PartialSchedule.id updatedSchedule) eqn:I; [discriminate|].
    destruct (PartialSchedule.entryId updatedSchedule) eqn:V; [discriminate|].
    apply (inv_update_schedule _ _ _ _ Hinv id s); [exact G| |];
      unfold merge_schedule; simpl; [rewrite I|rewrite V]; reflexivity.
  - (* deleteSchedule *)
    rewrite deleteSchedule_eq; cbv zeta; simpl snd.
    destruct (JsMap.get id (schedules st)) as [s|] eqn:G.
    + destruct (inv_schedule_entry _ _ _ _ Hinv id s G) as (i & e & Ei & Ge).
      rewrite Ei. simpl getEntryById'. unfold getEntryById. rewrite Ge.
      destruct (inv_entry_id _ _ _ _ Hinv i e Ge) as [Hid _].
      rewrite updateEntry_eq, Hid, Ge. simpl.
      apply (inv_delete_schedule _ _ _ _ Hinv id s i e); assumption.
    + simpl. rewrite (remove_absent _ _ G). exact Hinv.
Qed.

Lemma run_coordinated_inv ops :
  forall st st',
    store_inv st -> run_coordinated ops st = Some st' -> store_inv st'.
Proof.
  induction ops as [|op ops IH]; intros st st' Hinv Hrun; simpl in Hrun.
  - injection Hrun as <-. exact Hinv.
  - destruct (coordinated st op) eqn:C; [|discriminate].
    apply (IH (step st op)); [|exact Hrun]. apply step_inv; assumption.
Qed.

Lemma run_coordinated_run ops :
  forall st st', run_coordinated ops st = Some st' -> st' = run ops st.
Proof.
  induction ops as [|op ops IH]; intros st st' Hrun; simpl in *.
  - congruence.
  - destruct (coordinated st op); [|discriminate]. apply IH, Hrun.
Qed.

Lemma coordinated_reachable ops st :
  run_coordinated ops storage = Some st -> reachable st.
Proof.
  intros Hrun. exists ops. apply run_coordinated_run, Hrun.
Qed.

Lemma inv_in_sync st : store_inv st -> visibility_in_sync st.
Proof.
  intros Hinv e He. apply In_values in He. destruct He as [k He].
  apply (In_get _ _ _ (inv_entry_keys _ _ _ _ Hinv)) in He.
  destruct (inv_entry_id _ _ _ _ Hinv k e He) as [Hid _].
  rewrite (inv_visibility _ _ _ _ Hinv k e He), Hid. split.
  - intros (k' & s & Hs & Hentry). exists s. split; [|exact Hentry].
    apply In_values. exists k'. apply get_In, Hs.
  - intros (s & Hs & Hentry). apply In_values in Hs. destruct Hs as [k' Hs].
    apply (In_get _ _ _ (inv_schedule_keys _ _ _ _ Hinv)) in Hs. eauto.
Qed.

Lemma is_scheduled_iff e :
  is_scheduled e = true <-> Entry.visibility e = Some scheduled.
Proof.
  unfold is_scheduled. destruct (Entry.visibility e) as [[]|];
    split; congruence.
Qed.

Lemma in_syncb_iff st :
  visibility_in_syncb st = true <-> visibility_in_sync st.
Proof.
  unfold visibility_in_syncb, visibility_in_sync.
  rewrite forallb_forall.
  assert (Hex : forall e,
    existsb (refers_to (Entry.id e)) (JsMap.values (schedules st)) = true <->
    exists s, In s (JsMap.values (schedules st)) /\
              Schedule.entryId s = Some (Entry.id e)).
  { intros e. rewrite existsb_exists.
    split; intros (s & Hs & H); exists s; (split; [exact Hs|]);
      apply refers_to_iff, H. }
  split; intros H e He; specialize (H e He).
  - rewrite <- Hex, <- is_scheduled_iff. apply eqb_prop in H.
    rewrite H. tauto.
  - rewrite <- Hex, <- is_scheduled_iff in H. apply eq_true_iff_eq in H.
    rewrite H. apply eqb_reflx.
Qed.

(** C1, amended.  In every store that coordinated calls (see [coordinated])
    reach from the seeded store, an entry is "scheduled" exactly when some
    schedule has its id as [entryId]. *)
Theorem coordinated_visibility_in_sync :
  forall ops st,
    run_coordinated ops storage = Some st -> visibility_in_sync st.
Proof.
  intros ops st Hrun. apply inv_in_sync.
  exact (run_coordinated_inv ops storage st storage_inv Hrun).
Qed.

Lemma coordinated_visibility_in_sync_witness :
  visibility_in_sync scenario6.
Proof.
  apply (coordinated_visibility_in_sync
           [CreateEntry (an_entry None) 5; CreateEntry (an_entry None) 6;
            CreateSchedule (a_schedule 2 2) 7]).
  reflexivity.
Defined.

(** C1 as the specification words it fails: [createEntry] takes the
    visibility of the insert, so an entry created as "scheduled" is
    "scheduled" in a store that holds no schedule at all. *)
Lemma reachable_out_of_sync :
  ~ (forall st, reachable st -> visibility_in_sync st).
Proof.
  intros H.
  specialize (H (run [CreateEntry (an_entry (Some scheduled)) 5] storage)).
  rewrite <- in_syncb_iff in H.
  assert (R : reachable (run [CreateEntry (an_entry (Some scheduled)) 5]
                           storage)) by (eexists; reflexivity).
  specialize (H R). vm_compute in H. discriminate H.
Qed.

(** Each restriction in [coordinated] is needed: every run of
    [uncoordinated_runs] ends in a store that is out of sync. *)
Example uncoordinated_runs_out_of_sync :
  forallb (fun ops => negb (visibility_in_syncb (run ops storage)))
    uncoordinated_runs = true /\
  forallb (fun ops =>
             match run_coordinated ops storage with
             | None => true
             | Some _ => false
             end)
    uncoordinated_runs = true.
Proof. split; reflexivity. Qed.

(* ------------------------------------------------------------------ *)
(** ** Agreement of the combined queries *)

Lemma scheduled_entry_has_schedule u st r :
  In r (getScheduledEntries u st) ->
  exists e s,
    In e (JsMap.values (entries st)) /\
    In s (JsMap.values (schedules st)) /\
    Schedule.entryId s = Some (Entry.id e) /\
    EntryWithSchedule.entry r = e /\
    EntryWithSchedule.schedule r <> None.
Proof.
  unfold getScheduledEntries. rewrite filter_In.
  rewrite getEntriesWithSchedules_map, in_map_iff.
  intros [(e & <- & He) Hs].
  unfold getEntries in He. apply filter_In in He. destruct He as [He _].
  unfold has_schedule, view_of in Hs; simpl in Hs.
  destruct (getSchedulesByEntryId (Entry.id e) st) as [s|] eqn:F;
    [|discriminate].
  pose proof F as F'. unfold getSchedulesByEntryId in F'.
  apply find_some in F'. destruct F' as [Hin Hr].
  exists e, s. repeat split; try assumption.
  - apply refers_to_iff, Hr.
  - unfold view_of; simpl. rewrite F. discriminate.
Qed.

(** C5, amended.  In every store where visibility is in sync with the
    schedules (I2), every record of [getScheduledEntries(userId)] is
    "scheduled" and embeds a schedule, and every record of
    [getEntriesWithSchedules(userId)] that [getScheduledEntries(userId)]
    does not return embeds none. *)
Theorem scheduled_entries_agree :
  forall st, visibility_in_sync st -> composer_agreement st.
Proof.
  intros st Hsync u. split.
  - intros r Hr.
    destruct (scheduled_entry_has_schedule u st r Hr)
      as (e & s & He & Hs & Hentry & -> & Hsome).
    split; [|exact Hsome]. apply (Hsync e He). eauto.
  - intros r Hr Hn. unfold getScheduledEntries in Hn.
    rewrite filter_In in Hn. unfold has_schedule in Hn.
    destruct (EntryWithSchedule.schedule r); [|reflexivity].
    exfalso. apply Hn. split; [exact Hr|reflexivity].
Qed.

Lemma scheduled_entries_agree_witness : composer_agreement scenario6.
Proof.
  apply (scheduled_entries_agree scenario6).
  apply in_syncb_iff. reflexivity.
Defined.

(** C5 as the specification words it fails: an entry with a schedule whose
    visibility was patched to "private" is returned by
    [getScheduledEntries], and is not "scheduled". *)
Lemma reachable_composer_disagreement :
  ~ (forall st, reachable st -> composer_agreement st).
Proof.
  intros H.
  assert (R : reachable patched_private_store) by (eexists; reflexivity).
  destruct (H patched_private_store R 1) as [H1 _].
  destruct (getScheduledEntries 1 patched_private_store) as [|r l] eqn:E;
    [discriminate E|].
  destruct (H1 r (or_introl eq_refl)) as [Hv _].
  vm_compute in E. injection E as <- _. discriminate Hv.
Qed.

(* ------------------------------------------------------------------ *)
(** ** Keys are handed out in order *)

Section KeyFacts.
Context {V : Type}.
Implicit Types (m : JsMap.t V) (k c : Z) (v : V).

Lemma get_Some_key k v m : JsMap.get k m = Some v -> In k (JsMap.keys m).
Proof.
  intros H. apply get_In in H. unfold JsMap.keys.
  change k with (fst (k, v)). apply in_map, H.
Qed.

Lemma keys_set_existing k v0 v m :
  JsMap.get k m = Some v0 -> JsMap.keys (JsMap.set k v m) = JsMap.keys m.
Proof. intros H. rewrite keys_set, has_get, H. reflexivity. Qed.

Lemma set_fresh k v m :
  JsMap.get k m = None -> JsMap.set k v m = m ++ [(k, v)].
Proof.
  induction m as [|[k0 v0] m IH]; simpl; [reflexivity|].
  rewrite get_cons. destruct (k0 =? k); [discriminate|].
  intros H. rewrite (IH H). reflexivity.
Qed.

Lemma set_same k v m : JsMap.get k m = Some v -> JsMap.set k v m = m.
Proof.
  induction m as [|[k0 v0] m IH]; simpl.
  - discriminate.
  - rewrite get_cons. destruct (Z.eqb_spec k0 k) as [->|].
    + intros [= ->]. reflexivity.
    + intros H. rewrite (IH H). reflexivity.
Qed.

Lemma set_set k v v' m :
  JsMap.set k v (JsMap.set k v' m) = JsMap.set k v m.
Proof.
  induction m as [|[k0 v0] m IH]; simpl.
  - rewrite Z.eqb_refl. reflexivity.
  - destruct (k0 =? k) eqn:E; simpl.
    + rewrite Z.eqb_refl. reflexivity.
    + rewrite E, IH. reflexivity.
Qed.

Lemma keys_remove k m :
  JsMap.keys (JsMap.remove k m) =
  filter (fun i => negb (i =? k)) (JsMap.keys m).
Proof.
  unfold JsMap.keys, JsMap.remove.
  induction m as [|[k0 v0] m IH]; simpl; [reflexivity|].
  unfold JsMap.is_key at 1; simpl.
  destruct (k0 =? k); simpl; rewrite IH; reflexivity.
Qed.

Lemma sorted_filter (f : Z -> bool) l :
  StronglySorted Z.lt l -> StronglySorted Z.lt (filter f l).
Proof.
  induction 1 as [|x l Hs IH Hx]; simpl; [constructor|].
  destruct (f x); [|exact IH]. constructor; [exact IH|].
  rewrite Forall_forall in *. intros y Hy. apply filter_In in Hy.
  apply Hx, Hy.
Qed.

Lemma Forall_filter {A} (P : A -> Prop) (f : A -> bool) l :
  Forall P l -> Forall P (filter f l).
Proof.
  rewrite !Forall_forall. intros H y Hy. apply filter_In in Hy.
  apply H, Hy.
Qed.

Lemma below_fresh m c : keys_below m c -> JsMap.get c m = None.
Proof.
  intros (_ & _ & Hb). destruct (JsMap.get c m) as [v|] eqn:G; [|reflexivity].
  apply get_Some_key in G. rewrite Forall_forall in Hb.
  specialize (Hb c G). lia.
Qed.

Lemma keys_below_update m c k v0 v :
  keys_below m c -> JsMap.get k m = Some v0 ->
  keys_below (JsMap.set k v m) c.
Proof.
  unfold keys_below. intros H G. rewrite (keys_set_existing k v0 v m G).
  exact H.
Qed.

Lemma sorted_snoc l c :
  StronglySorted Z.lt l -> Forall (fun i => i < c) l ->
  StronglySorted Z.lt (l ++ [c]).
Proof.
  induction 1 as [|x l Hs IH Hx]; simpl; intros Hc.
  - repeat constructor.
  - inversion Hc as [|? ? Hxc Hlc]; subst. constructor; [auto|].
    apply Forall_app. split; [exact Hx|]. repeat constructor. exact Hxc.
Qed.

Lemma keys_below_create m c v :
  keys_below m c -> keys_below (JsMap.set c v m) (c + 1).
Proof.
  intros H. pose proof (below_fresh m c H) as G.
  destruct H as (Hc & Hs & Hb). rewrite (set_fresh c v m G).
  unfold keys_below, JsMap.keys. rewrite map_app. simpl.
  split; [lia|]. split.
  - apply sorted_snoc; [exact Hs|].
    eapply Forall_impl; [|exact Hb]. simpl; intros; lia.
  - apply Forall_app. split.
    + eapply Forall_impl; [|exact Hb]. simpl; intros; lia.
    + repeat constructor; lia.
Qed.

Lemma keys_below_remove m c k :
  keys_below m c -> keys_below (JsMap.remove k m) c.
Proof.
  intros (Hc & Hs & Hb). unfold keys_below. rewrite keys_remove.
  split; [exact Hc|]. split; [apply sorted_filter, Hs|].
  apply Forall_filter, Hb.
Qed.

Lemma keys_below_remove_all ks m c :
  keys_below m c -> keys_below (remove_all ks m) c.
Proof.
  unfold remove_all. revert m.
  induction ks as [|k ks IH]; intros m H; simpl; [exact H|].
  apply IH, keys_below_remove, H.
Qed.

Lemma keys_below_NoDup m c : keys_below m c -> NoDup (JsMap.keys m).
Proof. intros (_ & Hs & _). apply sorted_lt_NoDup, Hs. Qed.

End KeyFacts.

Lemma updateEntry_ok id p st :
  store_ok st -> store_ok (snd (updateEntry id p st)).
Proof.
  intros H. rewrite updateEntry_eq.
  destruct (JsMap.get id (entries st)) as [e|] eqn:G; [|exact H].
  destruct H as [Hu Hc He Hk Hs]. constructor; simpl; try assumption.
  apply (keys_below_update _ _ _ e); assumption.
Qed.

Lemma storage_ok : store_ok storage.
Proof.
  constructor; unfold keys_below; simpl;
    (split; [lia|]); (split; repeat constructor; lia).
Qed.

Lemma step_ok st op : store_ok st -> store_ok (step st op).
Proof.
  intros H. unfold step.
  destruct op; unfold call; rewrite bind_ret_map; simpl snd.
  - destruct H as [Hu Hc He Hk Hs]. constructor; simpl; try assumption.
    apply keys_below_create, Hu.
  - destruct H as [Hu Hc He Hk Hs]. constructor; simpl; try assumption.
    apply keys_below_create, Hc.
  - destruct H as [Hu Hc He Hk Hs]. constructor; simpl; try assumption.
    apply keys_below_remove, Hc.
  - destruct H as [Hu Hc He Hk Hs]. constructor; simpl; try assumption.
    apply keys_below_create, He.
  - apply updateEntry_ok, H.
  - rewrite deleteEntry_eq.
    destruct H as [Hu Hc He Hk Hs]. constructor; simpl; try assumption.
    + apply keys_below_remove, He.
    + apply keys_below_remove_all, Hs.
  - destruct H as [Hu Hc He Hk Hs]. constructor; simpl; try assumption.
    apply keys_below_create, Hk.
  - rewrite updateContact_eq.
    destruct (JsMap.get id (contacts st)) as [c|] eqn:G; [|exact H].
    destruct H as [Hu Hc He Hk Hs]. constructor; simpl; try assumption.
    apply (keys_below_update _ _ _ c); assumption.
  - destruct H as [Hu Hc He Hk Hs]. constructor; simpl; try assumption.
    apply keys_below_remove, Hk.
  - rewrite createSchedule_eq; cbv zeta; simpl snd.
    assert (H1 : store_ok
      (with_schedules
         (JsMap.set (scheduleIdCounter st)
            (Schedule.mk (scheduleIdCounter st)
               (InsertSchedule.entryId insertSchedule)
               (InsertSchedule.contactId insertSchedule)
               (InsertSchedule.deliveryDate insertSchedule)
               (Some "pending"%string)
               (InsertSchedule.reminderEnabled insertSchedule) (Some now)))
         (scheduleIdCounter st + 1) st)).
    { destruct H as [Hu Hc He Hk Hs]. constructor; simpl; try assumption.
      apply keys_below_create, Hs. }
    destruct (getEntryById' (InsertSchedule.entryId insertSchedule) st);
      [apply updateEntry_ok|]; exact H1.
  - rewrite updateSchedule_eq.
    destruct (JsMap.get id (schedules st)) as [s|] eqn:G; [|exact H].
    destruct H as [Hu Hc He Hk Hs]. constructor; simpl; try assumption.
    apply (keys_below_update _ _ _ s); assumption.
  - rewrite deleteSchedule_eq; cbv zeta; simpl snd.
    assert (H1 : forall st1, store_ok st1 ->
              scheduleIdCounter st1 = scheduleIdCounter st ->
              store_ok (with_schedules (JsMap.remove id)
                          (scheduleIdCounter st) st1)).
    { intros st1 [Hu Hc He Hk Hs] E. constructor; simpl; try assumption.
      rewrite <- E. apply keys_below_remove, Hs. }
    destruct (JsMap.get id (schedules st)) as [s|]; [|apply H1; auto].
    destruct (getEntryById' (Schedule.entryId s) st) as [e|];
      [|apply H1; auto].
    apply H1; [apply updateEntry_ok, H|].
    apply (updateEntry_counter KSchedule).
Qed.

Lemma run_ok ops : forall st, store_ok st -> store_ok (run ops st).
Proof.
  induction ops as [|op ops IH]; intros st H; simpl; [exact H|].
  apply IH, step_ok, H.
Qed.

Lemma listings_in_key_order_aux ops k :
  StronglySorted Z.lt (keys_of k (run ops storage)) /\
  Forall (fun i => 1 <= i < counter k (run ops storage))
    (keys_of k (run ops storage)).
Proof.
  destruct (run_ok ops storage storage_ok) as [Hu Hc He Hk Hs].
  destruct k; simpl;
    [destruct Hu as (_ & ? & ?)|destruct Hc as (_ & ? & ?)
    |destruct He as (_ & ? & ?)|destruct Hk as (_ & ? & ?)
    |destruct Hs as (_ & ? & ?)]; split; assumption.
Qed.

(** X1.  In every store that calls reach from the seeded store, the keys of
    each of the five maps are strictly increasing in listing order (so no
    two records share a key and every listing is in order of creation),
    and every key lies between 1 and the counter of its type. *)
Theorem listings_in_key_order :
  forall ops k,
    StronglySorted Z.lt (keys_of k (run ops storage)) /\
    NoDup (keys_of k (run ops storage)) /\
    Forall (fun i => 1 <= i < counter k (run ops storage))
      (keys_of k (run ops storage)).
Proof.
  intros ops k. destruct (listings_in_key_order_aux ops k) as [Hs Hb].
  split; [exact Hs|]. split; [apply sorted_lt_NoDup, Hs|exact Hb].
Qed.

Lemma create_keys k op st :
  store_ok st -> creates k op = true ->
  keys_of k (step st op) = keys_of k st ++ [counter k st].
Proof.
  intros [Hu Hc He Hk Hs] Hop. unfold step.
  assert (F : forall V (m : JsMap.t V) c v, keys_below m c ->
            JsMap.keys (JsMap.set c v m) = JsMap.keys m ++ [c]).
  { intros V m c v H. rewrite (set_fresh c v m (below_fresh m c H)).
    unfold JsMap.keys. rewrite map_app. reflexivity. }
  destruct op, k; try discriminate Hop; unfold call; rewrite bind_ret_map;
    simpl snd.
  - apply F, Hu.
  - apply F, Hc.
  - apply F, He.
  - apply F, Hk.
  - rewrite createSchedule_eq; cbv zeta; simpl snd.
    destruct (getEntryById' (InsertSchedule.entryId insertSchedule) st)
      as [e|]; [|apply F, Hs].
    rewrite updateEntry_eq; simpl.
    destruct (JsMap.get (Entry.id e) (entries st)); apply F, Hs.
Qed.

(** X2.  In every store reached from the seeded store, a [create] call of
    any of the five types puts its record last in the listing of its type,
    under a key that no record of the type had, and returns that key as the
    record's id. *)
Theorem create_appends_fresh_key :
  forall ops op k,
    creates k op = true ->
    keys_of k (step (run ops storage) op)
    = keys_of k (run ops storage) ++ [counter k (run ops storage)] /\
    ~ In (counter k (run ops storage)) (keys_of k (run ops storage)) /\
    created_id k (fst (call op (run ops storage)))
    = Some (counter k (run ops storage)).
Proof.
  intros ops op k Hop. split; [|split].
  - apply create_keys; [apply run_ok, storage_ok|exact Hop].
  - destruct (listings_in_key_order_aux ops k) as [_ Hb].
    intros Hin. rewrite Forall_forall in Hb. specialize (Hb _ Hin). lia.
  - destruct (call_counter k op (run ops storage)) as [_ Hr].
    rewrite Hr, Hop. reflexivity.
Qed.

Lemma create_appends_fresh_key_witness :
  keys_of KEntry (step (run [] storage) (CreateEntry (an_entry None) 5))
  = keys_of KEntry (run [] storage) ++ [counter KEntry (run [] storage)].
Proof.
  apply (create_appends_fresh_key [] (CreateEntry (an_entry None) 5) KEntry).
  reflexivity.
Defined.

(** X3.  In every store reached from the seeded store, [createEntry] stores
    the new entry under an id that no entry had, lists it last for its
    owner ([getEntries] of any other user is as before) and leaves the
    lookup of every other id as it was. *)
Theorem createEntry_appends_to_listing :
  forall ops ins now u,
    let e := fst (createEntry ins now (run ops storage)) in
    let st' := snd (createEntry ins now (run ops storage)) in
    getEntryById (Entry.id e) (run ops storage) = None /\
    getEntries u st'
    = getEntries u (run ops storage) ++ (if owned_by u e then [e] else []) /\
    forall i, i <> Entry.id e ->
              getEntryById i st' = getEntryById i (run ops storage).
Proof.
  intros ops ins now u. cbv zeta.
  pose proof (ok_entries _ (run_ok ops storage storage_ok)) as He.
  pose proof (below_fresh _ _ He) as G.
  set (st := run ops storage) in *. simpl. split; [exact G|]. split.
  - unfold getEntries; simpl. rewrite (set_fresh _ _ _ G).
    unfold JsMap.values. rewrite map_app, filter_app. simpl.
    reflexivity.
  - intros i Hi. unfold getEntryById; simpl. rewrite get_set.
    destruct (Z.eqb_spec i (entryIdCounter st)); [contradiction|reflexivity].
Qed.

(** X4.  [updateEntry], [updateContact] and [updateSchedule] for an id
    without a record return nothing and hand back the same store. *)
Theorem update_absent_unchanged :
  forall id st,
    (forall p, getEntryById id st = None -> updateEntry id p st = (None, st))
    /\
    (forall p, getContactById id st = None ->
               updateContact id p st = (None, st)) /\
    (forall p, getScheduleById id st = None ->
               updateSchedule id p st = (None, st)).
Proof.
  intros id st. repeat split; intros p H.
  - unfold getEntryById in H. rewrite updateEntry_eq, H. reflexivity.
  - unfold getContactById in H. rewrite updateContact_eq, H. reflexivity.
  - unfold getScheduleById in H. rewrite updateSchedule_eq, H. reflexivity.
Qed.

Lemma update_absent_unchanged_witness :
  updateEntry 9 (set_visibility scheduled) scenario6 = (None, scenario6).
Proof.
  apply (proj1 (update_absent_unchanged 9 scenario6)). reflexivity.
Defined.

Lemma spread_idem {A} (a : A) p : spread (spread a p) p = spread a p.
Proof. destruct p; reflexivity. Qed.

Lemma merge_entry_idem e p : merge_entry (merge_entry e p) p = merge_entry e p.
Proof. unfold merge_entry; simpl. rewrite !spread_idem. reflexivity. Qed.

Lemma merge_contact_idem c p :
  merge_contact (merge_contact c p) p = merge_contact c p.
Proof. unfold merge_contact; simpl. rewrite !spread_idem. reflexivity. Qed.

Lemma merge_schedule_idem s p :
  merge_schedule (merge_schedule s p) p = merge_schedule s p.
Proof. unfold merge_schedule; simpl. rewrite !spread_idem. reflexivity. Qed.

(** X5.  An update applied twice in a row gives the same result and the same
    store as applied once, for [updateEntry], [updateContact] and
    [updateSchedule]; an update never changes the order of a listing (the
    keys of the map stay as they are); and [updateEntry] with the patch [{}]
    leaves the store as it was. *)
Theorem update_idempotent :
  forall id st,
    (forall p,
       updateEntry id p (snd (updateEntry id p st)) = updateEntry id p st /\
       JsMap.keys (entries (snd (updateEntry id p st)))
       = JsMap.keys (entries st)) /\
    (forall p,
       updateContact id p (snd (updateContact id p st))
       = updateContact id p st /\
       JsMap.keys (contacts (snd (updateContact id p st)))
       = JsMap.keys (contacts st)) /\
    (forall p,
       updateSchedule id p (snd (updateSchedule id p st))
       = updateSchedule id p st /\
       JsMap.keys (schedules (snd (updateSchedule id p st)))
       = JsMap.keys (schedules st)) /\
    snd (updateEntry id empty_patch st) = st.
Proof.
  intros id st. split; [|split; [|split]].
  - intros p. rewrite (updateEntry_eq id p st).
    destruct (JsMap.get id (entries st)) as [e|] eqn:G; simpl.
    + rewrite updateEntry_eq; simpl. rewrite get_set, Z.eqb_refl.
      rewrite merge_entry_idem. unfold with_entries; simpl.
      rewrite set_set, (keys_set_existing _ _ _ _ G). split; reflexivity.
    + rewrite updateEntry_eq, G. split; reflexivity.
  - intros p. rewrite (updateContact_eq id p st).
    destruct (JsMap.get id (contacts st)) as [c|] eqn:G; simpl.
    + rewrite updateContact_eq; simpl. rewrite get_set, Z.eqb_refl.
      rewrite merge_contact_idem. unfold with_contacts; simpl.
      rewrite set_set, (keys_set_existing _ _ _ _ G). split; reflexivity.
    + rewrite updateContact_eq, G. split; reflexivity.
  - intros p. rewrite (updateSchedule_eq id p st).
    destruct (JsMap.get id (schedules st)) as [s|] eqn:G; simpl.
    + rewrite updateSchedule_eq; simpl. rewrite get_set, Z.eqb_refl.
      rewrite merge_schedule_idem. unfold with_schedules; simpl.
      rewrite set_set, (keys_set_existing _ _ _ _ G). split; reflexivity.
    + rewrite updateSchedule_eq, G. split; reflexivity.
  - rewrite updateEntry_eq.
    destruct (JsMap.get id (entries st)) as [e|] eqn:G; [|reflexivity].
    simpl. assert (E : merge_entry e empty_patch = e)
      by (destruct e; reflexivity).
    rewrite E. unfold with_entries. rewrite (set_same _ _ _ G).
    destruct st; reflexivity.
Qed.

(** X6.  [deleteCategory(id)] returns [true] exactly when the category
    existed; afterwards the id has no category, every other category is
    found as before, and no entry is touched: [getEntriesByCategory] for the
    deleted id lists the same entries as before. *)
Theorem deleteCategory_no_cascade :
  forall id st,
    let st' := snd (deleteCategory id st) in
    (fst (deleteCategory id st) = true <-> getCategoryById id st <> None) /\
    getCategoryById id st' = None /\
    (forall i, i <> id -> getCategoryById i st' = getCategoryById i st) /\
    entries st' = entries st /\
    forall u, getEntriesByCategory u id st' = getEntriesByCategory u id st.
Proof.
  intros id st. simpl. unfold getCategoryById; simpl. repeat split.
  - rewrite has_get. destruct (JsMap.get id (categories st)); congruence.
  - rewrite has_get. destruct (JsMap.get id (categories st)); congruence.
  - rewrite get_remove, Z.eqb_refl. reflexivity.
  - intros i Hi. rewrite get_remove.
    destruct (Z.eqb_spec i id); [contradiction|reflexivity].
Qed.

Lemma getContactById'_remove c id st :
  getContactById' c (snd (deleteContact id st)) =
  match c with
  | Some i => if i =? id then None else getContactById' c st
  | None => getContactById' c st
  end.
Proof.
  destruct c as [i|]; [|reflexivity]. simpl. unfold getContactById; simpl.
  apply get_remove.
Qed.

(** X7.  [deleteContact(id)] does not touch the schedules; after it,
    [getEntriesWithSchedules] returns the records it returned before, except
    that a schedule whose [contactId] is the deleted id is embedded without a
    contact. *)
Theorem deleteContact_orphans_schedules :
  forall id u st,
    let st' := snd (deleteContact id st) in
    schedules st' = schedules st /\
    getContactById id st' = None /\
    getEntriesWithSchedules u st'
    = map (without_contact id) (getEntriesWithSchedules u st).
Proof.
  intros id u st. cbv zeta. split; [reflexivity|]. split.
  - unfold getContactById; simpl. rewrite get_remove, Z.eqb_refl.
    reflexivity.
  - rewrite !getEntriesWithSchedules_map, map_map.
    pose proof (fun c => getContactById'_remove c id st) as Hc.
    assert (Hs : forall i, getSchedulesByEntryId i (snd (deleteContact id st))
                           = getSchedulesByEntryId i st) by reflexivity.
    assert (He : getEntries u (snd (deleteContact id st)) = getEntries u st)
      by reflexivity.
    remember (snd (deleteContact id st)) as st' eqn:E. clear E.
    rewrite He. apply map_ext. intros e. unfold view_of, without_contact.
    rewrite Hs. simpl.
    destruct (getSchedulesByEntryId (Entry.id e) st) as [s|]; simpl;
      [|reflexivity].
    rewrite Hc. reflexivity.
Qed.

(* ------------------------------------------------------------------ *)
(** ** What the schedule calls leave alone *)

Lemma updateEntry_frame k p st :
  users (snd (updateEntry k p st)) = users st /\
  categories (snd (updateEntry k p st)) = categories st /\
  contacts (snd (updateEntry k p st)) = contacts st /\
  schedules (snd (updateEntry k p st)) = schedules st /\
  JsMap.keys (entries (snd (updateEntry k p st))) = JsMap.keys (entries st).
Proof.
  rewrite updateEntry_eq.
  destruct (JsMap.get k (entries st)) as [e|] eqn:G; simpl;
    repeat split; try reflexivity.
  apply (keys_set_existing _ _ _ _ G).
Qed.

Lemma updateEntry_forget k v st i :
  option_map forget_visibility
    (getEntryById i (snd (updateEntry k (set_visibility v) st)))
  = option_map forget_visibility (getEntryById i st).
Proof.
  rewrite updateEntry_eq. unfold getEntryById.
  destruct (JsMap.get k (entries st)) as [e|] eqn:G; [|reflexivity].
  simpl. rewrite get_set. destruct (Z.eqb_spec i k) as [->|]; [|reflexivity].
  rewrite G. reflexivity.
Qed.

(** X8.  [createSchedule] and [deleteSchedule] never add, remove or reorder
    an entry, and never change any property of an entry but its visibility;
    they leave users, categories and contacts as they were. *)
Theorem schedule_calls_touch_visibility_only :
  forall st,
    (forall ins now,
       let st' := snd (createSchedule ins now st) in
       (forall i, option_map forget_visibility (getEntryById i st')
                  = option_map forget_visibility (getEntryById i st)) /\
       JsMap.keys (entries st') = JsMap.keys (entries st) /\
       users st' = users st /\ categories st' = categories st /\
       contacts st' = contacts st) /\
    (forall id,
       let st' := snd (deleteSchedule id st) in
       (forall i, option_map forget_visibility (getEntryById i st')
                  = option_map forget_visibility (getEntryById i st)) /\
       JsMap.keys (entries st') = JsMap.keys (entries st) /\
       users st' = users st /\ categories st' = categories st /\
       contacts st' = contacts st).
Proof.
  intros st. split.
  - intros ins now. cbv zeta. rewrite createSchedule_eq; cbv zeta; simpl snd.
    set (st1 := with_schedules _ _ st).
    destruct (getEntryById' (InsertSchedule.entryId ins) st) as [e|].
    + destruct (updateEntry_frame (Entry.id e) (set_visibility scheduled) st1)
        as (Hu & Hc & Hk & _ & He).
      split; [intros i; apply (updateEntry_forget _ _ st1)|].
      repeat split; assumption.
    + repeat split; reflexivity.
  - intros id. cbv zeta. rewrite deleteSchedule_eq; cbv zeta; simpl snd.
    destruct (JsMap.get id (schedules st)) as [s|];
      [|repeat split; reflexivity].
    destruct (getEntryById' (Schedule.entryId s) st) as [e|];
      [|repeat split; reflexivity].
    destruct (updateEntry_frame (Entry.id e) (set_visibility private) st)
      as (Hu & Hc & Hk & _ & He).
    split; [intros i; apply (updateEntry_forget _ _ st)|].
    repeat split; assumption.
Qed.

(** X9.  [createSchedule] for an [entryId] that is missing or names no entry
    still stores the schedule, with status "pending", under the id it
    returns, and changes no entry. *)
Theorem createSchedule_without_entry :
  forall ins now st,
    getEntryById' (InsertSchedule.entryId ins) st = None ->
    let s := fst (createSchedule ins now st) in
    let st' := snd (createSchedule ins now st) in
    entries st' = entries st /\
    getScheduleById (Schedule.id s) st' = Some s /\
    Schedule.entryId s = InsertSchedule.entryId ins /\
    Schedule.status s = Some "pending"%string.
Proof.
  intros ins now st H. cbv zeta. rewrite createSchedule_eq; cbv zeta.
  rewrite H. simpl. unfold getScheduleById; simpl.
  rewrite get_set, Z.eqb_refl. repeat split.
Qed.

Lemma createSchedule_without_entry_witness :
  entries (snd (createSchedule (a_schedule 9 2) 5 scenario6))
  = entries scenario6.
Proof.
  apply (createSchedule_without_entry (a_schedule 9 2) 5 scenario6).
  reflexivity.
Defined.

(* ------------------------------------------------------------------ *)
(** ** Records stay under their own id *)

Lemma keyed_entries_In st :
  entries_keyed_by_id st = true <->
  forall k e, In (k, e) (entries st) -> Entry.id e = k.
Proof.
  unfold entries_keyed_by_id. rewrite forallb_forall. split.
  - intros H k e Hin. apply Z.eqb_eq. exact (H (k, e) Hin).
  - intros H [k e] Hin. apply Z.eqb_eq. exact (H k e Hin).
Qed.

Lemma updateEntry_keeps_keyed k p st :
  PartialEntry.id p = None ->
  entries_keyed_by_id st = true ->
  entries_keyed_by_id (snd (updateEntry k p st)) = true.
Proof.
  intros Hp H. rewrite updateEntry_eq.
  destruct (JsMap.get k (entries st)) as [e|] eqn:G; [|exact H].
  rewrite keyed_entries_In in *. simpl. intros k' e' Hin.
  apply In_set_inv in Hin. destruct Hin as [Hin|Hin]; [|apply H, Hin].
  injection Hin as E1 E2. rewrite E1, E2. unfold merge_entry; simpl.
  rewrite Hp. simpl. apply H, get_In, G.
Qed.

Lemma keeps_ids_schedule op :
  keeps_ids op = true -> keeps_schedule_ids op = true.
Proof. destruct op; simpl; auto. Qed.

Lemma step_keeps_entry_ids st op :
  keeps_ids op = true ->
  entries_keyed_by_id st = true ->
  entries_keyed_by_id (step st op) = true.
Proof.
  intros Hop Hst. unfold step.
  destruct op; unfold call; rewrite bind_ret_map; simpl snd.
  1-3, 7, 9: exact Hst.
  - rewrite keyed_entries_In in *. simpl. intros k e Hin.
    apply In_set_inv in Hin. destruct Hin as [Hin|Hin]; [|apply Hst, Hin].
    injection Hin as E1 E2. rewrite E1, E2. reflexivity.
  - apply updateEntry_keeps_keyed; [|exact Hst].
    simpl in Hop. destruct (PartialEntry.id updatedEntry);
      [discriminate|reflexivity].
  - rewrite deleteEntry_eq. rewrite keyed_entries_In in *. simpl.
    intros k e Hin. apply In_remove in Hin. apply Hst, Hin.
  - rewrite updateContact_eq.
    destruct (JsMap.get id (contacts st)); exact Hst.
  - rewrite createSchedule_eq; cbv zeta; simpl snd.
    destruct (getEntryById' (InsertSchedule.entryId insertSchedule) st);
      [apply updateEntry_keeps_keyed; [reflexivity|]|]; exact Hst.
  - rewrite updateSchedule_eq.
    destruct (JsMap.get id (schedules st)); exact Hst.
  - rewrite deleteSchedule_eq; cbv zeta; simpl snd.
    assert (H1 : forall st1, entries_keyed_by_id st1 = true ->
              entries_keyed_by_id
                (with_schedules (JsMap.remove id) (scheduleIdCounter st) st1)
              = true) by (intros st1 H; exact H).
    apply H1.
    destruct (JsMap.get id (schedules st)) as [s|]; [|exact Hst].
    destruct (getEntryById' (Schedule.entryId s) st); [|exact Hst].
    apply updateEntry_keeps_keyed; [reflexivity|exact Hst].
Qed.

Lemma run_keeps_ids ops :
  forall st,
    forallb keeps_ids ops = true ->
    entries_keyed_by_id st = true -> schedules_keyed_by_id st = true ->
    entries_keyed_by_id (run ops st) = true /\
    schedules_keyed_by_id (run ops st) = true.
Proof.
  induction ops as [|op ops IH]; intros st Hops He Hs; simpl; [auto|].
  simpl in Hops. apply andb_true_iff in Hops. destruct Hops as [Hop Hops].
  apply IH; [exact Hops| |].
  - apply step_keeps_entry_ids; assumption.
  - apply step_keeps_schedule_ids; [apply keeps_ids_schedule|]; assumption.
Qed.

(** X10.  Along every run from the seeded store in which no update carries
    an [id] in its partial, each stored entry and each stored schedule is
    found under its own id: [getEntryById(e.id)] is [e] and
    [getScheduleById(s.id)] is [s]. *)
Theorem records_found_under_own_id :
  forall ops,
    forallb keeps_ids ops = true ->
    (forall e, In e (JsMap.values (entries (run ops storage))) ->
               getEntryById (Entry.id e) (run ops storage) = Some e) /\
    (forall s, In s (JsMap.values (schedules (run ops storage))) ->
               getScheduleById (Schedule.id s) (run ops storage) = Some s).
Proof.
  intros ops Hops.
  destruct (run_keeps_ids ops storage Hops eq_refl eq_refl) as [He Hs].
  rewrite keyed_entries_In in He. rewrite keyed_by_id_In in Hs.
  destruct (run_ok ops storage storage_ok) as [_ _ Oe _ Os].
  split.
  - intros e Hin. apply In_values in Hin. destruct Hin as [k Hin].
    rewrite (He k e Hin). unfold getEntryById.
    apply In_get; [apply (keys_below_NoDup _ _ Oe)|exact Hin].
  - intros s Hin. apply In_values in Hin. destruct Hin as [k Hin].
    rewrite (Hs k s Hin). unfold getScheduleById.
    apply In_get; [apply (keys_below_NoDup _ _ Os)|exact Hin].
Qed.

Lemma records_found_under_own_id_witness :
  (forall e, In e (JsMap.values (entries scenario6)) ->
             getEntryById (Entry.id e) scenario6 = Some e) /\
  (forall s, In s (JsMap.values (schedules scenario6)) ->
             getScheduleById (Schedule.id s) scenario6 = Some s).
Proof.
  apply (records_found_under_own_id
           [CreateEntry (an_entry None) 5; CreateEntry (an_entry None) 6;
            CreateSchedule (a_schedule 2 2) 7]).
  reflexivity.
Defined.

(** X11.  Along every run from the seeded store in which no
    [updateSchedule] carries an [id], [deleteEntry(id)] keeps every schedule
    that does not point to [id], keeps every other entry, and leaves users,
    categories and contacts as they were. *)
Theorem deleteEntry_keeps_other_schedules :
  forall ops id,
    forallb keeps_schedule_ids ops = true ->
    let st := run ops storage in
    let st' := snd (deleteEntry id st) in
    (forall k s, getScheduleById k st = Some s ->
                 Schedule.entryId s <> Some id ->
                 getScheduleById k st' = Some s) /\
    (forall i, i <> id -> getEntryById i st' = getEntryById i st) /\
    users st' = users st /\ categories st' = categories st /\
    contacts st' = contacts st.
Proof.
  intros ops id Hops. cbv zeta.
  pose proof (run_keeps_schedule_ids ops storage Hops eq_refl) as Hk.
  rewrite keyed_by_id_In in Hk.
  destruct (run_ok ops storage storage_ok) as [_ _ _ _ Os].
  apply keys_below_NoDup in Os.
  set (st := run ops storage) in *.
  rewrite deleteEntry_eq; simpl. unfold getScheduleById, getEntryById; simpl.
  split; [|split; [|repeat split]].
  - intros k s G Hn. rewrite get_remove_all.
    destruct (existsb (Z.eqb k) (cascade_ids id st)) eqn:E; [|exact G].
    exfalso. apply existsb_exists in E. destruct E as (k0 & Hin & Hk0).
    apply Z.eqb_eq in Hk0. subst k0. unfold cascade_ids in Hin.
    apply in_map_iff in Hin. destruct Hin as (s' & Hid & Hin).
    apply filter_In in Hin. destruct Hin as [Hin Hr].
    apply In_values in Hin. destruct Hin as [k' Hin].
    pose proof (Hk k' s' Hin) as Hid'.
    apply (In_get _ _ _ Os) in Hin.
    assert (k' = k) by congruence. subst k'.
    assert (s' = s) by congruence. subst s'.
    apply Hn, refers_to_iff, Hr.
  - intros i Hi. rewrite get_remove.
    destruct (Z.eqb_spec i id); [contradiction|reflexivity].
Qed.

Lemma deleteEntry_keeps_other_schedules_witness :
  getScheduleById 1 (snd (deleteEntry 1 scenario6))
  = getScheduleById 1 scenario6.
Proof.
  assert (H : forallb keeps_schedule_ids
                [CreateEntry (an_entry None) 5; CreateEntry (an_entry None) 6;
                 CreateSchedule (a_schedule 2 2) 7] = true) by reflexivity.
  pose proof (proj1 (deleteEntry_keeps_other_schedules _ 1 H)) as K.
  change (run _ storage) with scenario6 in K.
  rewrite (K 1 (Schedule.mk 1 (Some 2) (Some 2) 2000 (Some "pending"%string)
                  None (Some 7))); [reflexivity|reflexivity|discriminate].
Defined.

(* ------------------------------------------------------------------ *)
(** ** Filtered listings *)

Lemma filter_filter {A} (f g : A -> bool) l :
  filter f (filter g l) = filter (fun x => g x && f x) l.
Proof.
  induction l as [|x l IH]; simpl; [reflexivity|].
  destruct (g x); simpl; [destruct (f x)|]; rewrite IH; reflexivity.
Qed.

Lemma by_type_lengths_le (l : list Entry.t) :
  (List.length (filter (fun e => String.eqb (Entry.type e) "text") l) +
   List.length (filter (fun e => String.eqb (Entry.type e) "audio") l) +
   List.length (filter (fun e => String.eqb (Entry.type e) "video") l)
   <= List.length l)%nat.
Proof.
  induction l as [|e l IH]; simpl; [lia|].
  destruct (String.eqb_spec (Entry.type e) "text") as [E1|];
    destruct (String.eqb_spec (Entry.type e) "audio") as [E2|];
    destruct (String.eqb_spec (Entry.type e) "video") as [E3|];
    simpl; try lia; congruence.
Qed.

Lemma by_type_lengths (l : list Entry.t) :
  Forall (fun e => In (Entry.type e) entryTypes) l ->
  List.length l =
  (List.length (filter (fun e => String.eqb (Entry.type e) "text") l) +
   List.length (filter (fun e => String.eqb (Entry.type e) "audio") l) +
   List.length (filter (fun e => String.eqb (Entry.type e) "video") l))%nat.
Proof.
  induction 1 as [|e l He Hl IH]; simpl; [reflexivity|].
  destruct He as [E|[E|[E|[]]]]; rewrite <- E; simpl; lia.
Qed.

Lemma getEntriesByType_filter u st t :
  getEntriesByType u t st =
  filter (fun e => String.eqb (Entry.type e) t) (getEntries u st).
Proof. unfold getEntries. rewrite filter_filter. reflexivity. Qed.

Lemma getEntriesByCategory_filter u st c :
  getEntriesByCategory u c st = filter (in_category c) (getEntries u st).
Proof. unfold getEntries. rewrite filter_filter. reflexivity. Qed.

(** X12.  [getEntriesByType] and [getEntriesByCategory] return sub-lists of
    [getEntries(userId)], in the same order: an entry is in
    [getEntriesByType(userId, t)] exactly when it is in [getEntries(userId)]
    and its [type] is the string [t].  The listings of "text", "audio" and
    "video" have together at most as many entries as [getEntries(userId)],
    and exactly as many when every entry of the user has one of the three
    types (a stored [type] can be another string). *)
Theorem filtered_listings :
  forall u st,
    (forall t, getEntriesByType u t st =
               filter (fun e => String.eqb (Entry.type e) t)
                 (getEntries u st)) /\
    (forall c, getEntriesByCategory u c st =
               filter (in_category c) (getEntries u st)) /\
    (forall t e, In e (getEntriesByType u t st) <->
                 In e (getEntries u st) /\ Entry.type e = t) /\
    (List.length (getEntriesByType u "text" st) +
     List.length (getEntriesByType u "audio" st) +
     List.length (getEntriesByType u "video" st)
     <= List.length (getEntries u st))%nat /\
    (Forall (fun e => In (Entry.type e) entryTypes) (getEntries u st) ->
     List.length (getEntries u st) =
     (List.length (getEntriesByType u "text" st) +
      List.length (getEntriesByType u "audio" st) +
      List.length (getEntriesByType u "video" st))%nat).
Proof.
  intros u st. pose proof (getEntriesByType_filter u st) as Ht.
  split; [exact Ht|]. split; [|split; [|split]].
  - apply getEntriesByCategory_filter.
  - intros t e. rewrite Ht, filter_In.
    destruct (String.eqb_spec (Entry.type e) t); intuition congruence.
  - rewrite !Ht. apply by_type_lengths_le.
  - rewrite !Ht. apply by_type_lengths.
Qed.

(** An entry patched to the type "memo" is in none of the three listings. *)
Example other_type_listing :
  let st :=
    step one_entry_store
      (UpdateEntry 1
         (PartialEntry.mk None None None None None (Some "memo"%string) None
            None None None)) in
  List.length (getEntriesByType 1 "memo" st) = 1%nat /\
  List.length (getEntries 1 st) = 1%nat /\
  getEntriesByType 1 "text" st = [] /\
  getEntriesByType 1 "audio" st = [] /\
  getEntriesByType 1 "video" st = [].
Proof. repeat split. Qed.

Lemma find_app {A} (f : A -> bool) l l' :
  find f (l ++ l') =
  match find f l with
  | Some x => Some x
  | None => find f l'
  end.
Proof.
  induction l as [|x l IH]; simpl; [reflexivity|].
  destruct (f x); [reflexivity|exact IH].
Qed.

(** X13.  In every store reached from the seeded store, [createUser] stores
    the new user under the id it returns, and does not take a username away
    from an earlier user: [getUserByUsername] keeps answering with the user
    it found before, and finds the new user only for a username that no
    earlier user had. *)
Theorem createUser_first_username_wins :
  forall ops ins name,
    let u := fst (createUser ins (run ops storage)) in
    let st' := snd (createUser ins (run ops storage)) in
    getUser (User.id u) st' = Some u /\
    getUserByUsername name st' =
    match getUserByUsername name (run ops storage) with
    | Some x => Some x
    | None =>
        if String.eqb (InsertUser.username ins) name then Some u else None
    end.
Proof.
  intros ops ins name. cbv zeta.
  pose proof (ok_users _ (run_ok ops storage storage_ok)) as Hu.
  pose proof (below_fresh _ _ Hu) as G.
  set (st := run ops storage) in *. split.
  - unfold getUser; simpl. rewrite get_set, Z.eqb_refl. reflexivity.
  - unfold getUserByUsername; simpl. rewrite (set_fresh _ _ _ G).
    unfold JsMap.values. rewrite map_app, find_app. simpl.
    destruct (find _ (map snd (users st))); [reflexivity|].
    destruct (String.eqb (InsertUser.username ins) name); reflexivity.
Qed.

(** The seeded user keeps the name "demo" when a second "demo" is created. *)
Example second_demo_user :
  option_map User.id
    (getUserByUsername "demo"
       (step storage
          (CreateUser (InsertUser.mk "demo" "other" None None))))
  = Some 1.
Proof. reflexivity. Qed.

(* ------------------------------------------------------------------ *)
(** ** Schedules and entries in coordinated runs *)

Lemma find_refers_Some i s l :
  In s l -> refers_to i s = true -> exists s', find (refers_to i) l = Some s'.
Proof.
  intros Hin Hr. destruct (find (refers_to i) l) as [s'|] eqn:F; [eauto|].
  pose proof (find_none _ _ F s Hin). congruence.
Qed.

Lemma inv_unique_schedule st s1 s2 :
  store_inv st ->
  In s1 (JsMap.values (schedules st)) ->
  In s2 (JsMap.values (schedules st)) ->
  Schedule.entryId s1 = Schedule.entryId s2 -> s1 = s2.
Proof.
  intros Hinv H1 H2 E.
  apply In_values in H1, H2. destruct H1 as [k1 H1], H2 as [k2 H2].
  apply (In_get _ _ _ (inv_schedule_keys _ _ _ _ Hinv)) in H1, H2.
  pose proof (inv_one_schedule _ _ _ _ Hinv _ _ _ _ H1 H2 E). subst k2.
  congruence.
Qed.

(** X14.  In every store that coordinated calls reach from the seeded
    store: no two schedules have the same [entryId]; every schedule points
    to an entry that exists, is "scheduled", and for whose id
    [getSchedulesByEntryId] returns that schedule; and every schedule is
    found under its own id. *)
Theorem coordinated_one_schedule_per_entry :
  forall ops st,
    run_coordinated ops storage = Some st ->
    (forall s1 s2,
       In s1 (JsMap.values (schedules st)) ->
       In s2 (JsMap.values (schedules st)) ->
       Schedule.entryId s1 = Schedule.entryId s2 -> s1 = s2) /\
    (forall s,
       In s (JsMap.values (schedules st)) ->
       getScheduleById (Schedule.id s) st = Some s /\
       exists e,
         Schedule.entryId s = Some (Entry.id e) /\
         getEntryById (Entry.id e) st = Some e /\
         Entry.visibility e = Some scheduled /\
         getSchedulesByEntryId (Entry.id e) st = Some s).
Proof.
  intros ops st Hrun.
  pose proof (run_coordinated_inv ops storage st storage_inv Hrun) as Hinv.
  split; [intros s1 s2; apply inv_unique_schedule, Hinv|].
  intros s Hs. pose proof Hs as Hin.
  apply In_values in Hs. destruct Hs as [k Hs].
  apply (In_get _ _ _ (inv_schedule_keys _ _ _ _ Hinv)) in Hs.
  destruct (inv_schedule_id _ _ _ _ Hinv k s Hs) as [Hid _].
  split; [rewrite Hid; exact Hs|].
  destruct (inv_schedule_entry _ _ _ _ Hinv k s Hs) as (i & e & Ei & Ge).
  destruct (inv_entry_id _ _ _ _ Hinv i e Ge) as [Eid _].
  exists e. rewrite Eid. split; [exact Ei|]. split; [exact Ge|]. split.
  - apply (inv_visibility _ _ _ _ Hinv i e Ge). eauto.
  - unfold getSchedulesByEntryId.
    destruct (find_refers_Some i s _ Hin (proj2 (refers_to_iff i s) Ei))
      as [s' F].
    rewrite F. f_equal. apply find_some in F. destruct F as [Hin' Hr].
    apply refers_to_iff in Hr.
    apply (inv_unique_schedule st s' s Hinv Hin' Hin). congruence.
Qed.

Lemma coordinated_one_schedule_per_entry_witness :
  Forall
    (fun s => getScheduleById (Schedule.id s) scenario6 = Some s)
    (JsMap.values (schedules scenario6)).
Proof.
  assert (H : run_coordinated
                [CreateEntry (an_entry None) 5; CreateEntry (an_entry None) 6;
                 CreateSchedule (a_schedule 2 2) 7] storage = Some scenario6)
    by reflexivity.
  apply Forall_forall. intros s Hs.
  apply (proj2 (coordinated_one_schedule_per_entry _ _ H) s Hs).
Defined.

(** X15.  In every store that coordinated calls reach from the seeded
    store, [getSchedules(userId)] lists exactly the schedules that
    [getScheduledEntries(userId)] embeds in its records. *)
Theorem getSchedules_are_embedded :
  forall ops st u,
    run_coordinated ops storage = Some st ->
    forall s,
      In s (getSchedules u st) <->
      exists r,
        In r (getScheduledEntries u st) /\
        option_map ScheduleWithContact.schedule (EntryWithSchedule.schedule r)
        = Some s.
Proof.
  intros ops st u Hrun s.
  pose proof (run_coordinated_inv ops storage st storage_inv Hrun) as Hinv.
  unfold getSchedules, getScheduledEntries. cbv zeta.
  rewrite filter_In, getEntriesWithSchedules_map. split.
  - intros [Hin Hm].
    destruct (Schedule.entryId s) as [i|] eqn:Ei; [|discriminate].
    apply existsb_exists in Hm. destruct Hm as (i' & Hi' & E).
    apply Z.eqb_eq in E. subst i'.
    apply in_map_iff in Hi'. destruct Hi' as (e & Eid & He).
    destruct (find_refers_Some (Entry.id e) s _ Hin) as [s' F].
    { apply refers_to_iff. congruence. }
    assert (s' = s).
    { pose proof F as F'. apply find_some in F'. destruct F' as [Hin' Hr].
      apply refers_to_iff in Hr.
      apply (inv_unique_schedule st s' s Hinv Hin' Hin). congruence. }
    subst s'. exists (view_of st e). split.
    + apply filter_In. split; [apply in_map, He|].
      unfold has_schedule, view_of; simpl.
      unfold getSchedulesByEntryId. rewrite F. reflexivity.
    + unfold view_of; simpl. unfold getSchedulesByEntryId. rewrite F.
      reflexivity.
  - intros (r & Hr & Hs). apply filter_In in Hr. destruct Hr as [Hr _].
    apply in_map_iff in Hr. destruct Hr as (e & <- & He).
    unfold view_of in Hs; simpl in Hs.
    destruct (getSchedulesByEntryId (Entry.id e) st) as [s'|] eqn:F;
      [|discriminate].
    simpl in Hs. injection Hs as ->.
    unfold getSchedulesByEntryId in F. apply find_some in F.
    destruct F as [Hin Hr]. apply refers_to_iff in Hr.
    split; [exact Hin|]. rewrite Hr. apply existsb_exists.
    exists (Entry.id e). split; [apply in_map, He|apply Z.eqb_refl].
Qed.

Lemma getSchedules_are_embedded_witness :
  Forall
    (fun s =>
       exists r,
         In r (getScheduledEntries 1 scenario6) /\
         option_map ScheduleWithContact.schedule
           (EntryWithSchedule.schedule r) = Some s)
    (getSchedules 1 scenario6).
Proof.
  assert (H : run_coordinated
                [CreateEntry (an_entry None) 5; CreateEntry (an_entry None) 6;
                 CreateSchedule (a_schedule 2 2) 7] storage = Some scenario6)
    by reflexivity.
  apply Forall_forall. intros s Hs.
  exact (proj1 (getSchedules_are_embedded _ _ 1 H s) Hs).
Defined.

(* ------------------------------------------------------------------ *)
(** ** Users are never changed *)

Lemma step_users st op :
  (forall u, op <> CreateUser u) -> users (step st op) = users st.
Proof.
  intros Hop. unfold step.
  destruct op; unfold call; rewrite bind_ret_map; simpl snd;
    try reflexivity.
  - exfalso. exact (Hop _ eq_refl).
  - apply updateEntry_frame.
  - rewrite deleteEntry_eq. reflexivity.
  - rewrite updateContact_eq.
    destruct (JsMap.get id (contacts st)); reflexivity.
  - rewrite createSchedule_eq; cbv zeta; simpl snd.
    destruct (getEntryById' (InsertSchedule.entryId insertSchedule) st);
      [|reflexivity].
    rewrite (proj1 (updateEntry_frame _ _ _)). reflexivity.
  - rewrite updateSchedule_eq.
    destruct (JsMap.get id (schedules st)); reflexivity.
  - rewrite deleteSchedule_eq; cbv zeta; simpl snd.
    destruct (JsMap.get id (schedules st)) as [s|]; [|reflexivity].
    destruct (getEntryById' (Schedule.entryId s) st); [|reflexivity].
    simpl. apply updateEntry_frame.
Qed.

Lemma step_keeps_user st op i u :
  store_ok st -> getUser i st = Some u -> getUser i (step st op) = Some u.
Proof.
  intros Hok G. unfold getUser in *.
  destruct op; try (rewrite step_users; [exact G|discriminate]).
  unfold step; simpl. rewrite get_set.
  destruct (Z.eqb_spec i (userIdCounter st)) as [->|]; [|exact G].
  rewrite (below_fresh _ _ (ok_users _ Hok)) in G. discriminate.
Qed.

Lemma run_keeps_user ops :
  forall st i u,
    store_ok st -> getUser i st = Some u -> getUser i (run ops st) = Some u.
Proof.
  induction ops as [|op ops IH]; intros st i u Hok G; simpl; [exact G|].
  apply IH; [apply step_ok, Hok|apply step_keeps_user; assumption].
Qed.

(** X16.  No call changes or removes a user: a user found in a store
    reached from the seeded store is found, unchanged, after any further
    calls.  So [GET /users/me] answers in every reachable store as it does
    in the seeded one, with status 200 and the demo user. *)
Theorem users_never_change :
  forall ops ops' i u,
    getUser i (run ops storage) = Some u ->
    getUser i (run (ops ++ ops') storage) = Some u /\
    Routes.get_users_me (run ops' storage) = Routes.get_users_me storage /\
    Routes.status (Routes.get_users_me (run ops' storage)) = 200.
Proof.
  intros ops ops' i u G. split.
  - unfold run. rewrite fold_left_app.
    apply (run_keeps_user ops' _ i u); [apply run_ok, storage_ok|exact G].
  - assert (H : getUser 1 (run ops' storage) = getUser 1 storage).
    { apply (run_keeps_user ops' storage 1); [apply storage_ok|reflexivity]. }
    unfold Routes.get_users_me. rewrite H. split; reflexivity.
Qed.

Lemma users_never_change_witness :
  getUser 1 (run ([] ++ [DeleteEntry 1]) storage) = getUser 1 storage.
Proof.
  apply (users_never_change [] [DeleteEntry 1] 1). reflexivity.
Defined.

(* ------------------------------------------------------------------ *)
(** ** The handlers of [server/routes.ts] *)

Lemma deleteSchedule_not_found id st :
  JsMap.get id (schedules st) = None -> deleteSchedule id st = (false, st).
Proof.
  intros H. rewrite deleteSchedule_eq, has_get, H. simpl.
  unfold with_schedules. rewrite (remove_absent _ _ H).
  destruct st; reflexivity.
Qed.

Lemma deleteCategory_not_found id st :
  JsMap.get id (categories st) = None -> deleteCategory id st = (false, st).
Proof.
  intros H. unfold deleteCategory, bind, gets, modify, ret; simpl.
  rewrite has_get, H. unfold with_categories.
  rewrite (remove_absent _ _ H). destruct st; reflexivity.
Qed.

Lemma deleteContact_not_found id st :
  JsMap.get id (contacts st) = None -> deleteContact id st = (false, st).
Proof.
  intros H. unfold deleteContact, bind, gets, modify, ret; simpl.
  rewrite has_get, H. unfold with_contacts.
  rewrite (remove_absent _ _ H). destruct st; reflexivity.
Qed.

Section RouteFacts.
Variable parseInt : string -> option Z.

Lemma delete_entry_eq id st :
  Routes.delete_entry parseInt id st =
  match parseInt id with
  | None => (Routes.mkResponse 400 (Routes.Error "Invalid ID"), st)
  | Some n =>
      (if JsMap.has n (entries st) then Routes.mkResponse 204 Routes.NoBody
       else Routes.mkResponse 404 (Routes.Error "Entry not found"),
       snd (deleteEntry n st))
  end.
Proof.
  unfold Routes.delete_entry. destruct (parseInt id) as [n|]; [|reflexivity].
  unfold bind, ret. rewrite deleteEntry_eq.
  destruct (JsMap.has n (entries st)); reflexivity.
Qed.

(** X17.  [DELETE /entries/:id] answers 204 exactly when the id reads as a
    number that has an entry, and 400 or 404 otherwise; a 400 leaves the
    store as it was and a 404 leaves the entries as they were.  After the
    call, whatever it answered, [GET /entries/:id] for the same id does not
    answer 200 and a second [DELETE] does not answer 204. *)
Theorem delete_entry_route :
  forall id st,
    let r := fst (Routes.delete_entry parseInt id st) in
    let st' := snd (Routes.delete_entry parseInt id st) in
    (Routes.status r = 204 <->
     exists n, parseInt id = Some n /\ getEntryById n st <> None) /\
    (Routes.status r = 204 \/ Routes.status r = 400 \/ Routes.status r = 404)
    /\
    (Routes.status r = 400 -> st' = st) /\
    (Routes.status r = 404 -> entries st' = entries st) /\
    Routes.status (Routes.get_entry parseInt id st') <> 200 /\
    Routes.status (fst (Routes.delete_entry parseInt id st')) <> 204.
Proof.
  intros id st. cbv zeta. rewrite (delete_entry_eq id st).
  unfold Routes.get_entry. rewrite delete_entry_eq.
  destruct (parseInt id) as [n|] eqn:P; simpl.
  - rewrite deleteEntry_eq; simpl. unfold getEntryById; simpl.
    rewrite get_remove, Z.eqb_refl. simpl.
    rewrite (has_get n (JsMap.remove n (entries st))), get_remove,
      Z.eqb_refl. simpl.
    rewrite has_get. destruct (JsMap.get n (entries st)) as [e|] eqn:G; simpl.
    + repeat split; try discriminate; auto.
      exists n. split; [reflexivity|congruence].
    + repeat split; try discriminate; auto.
      * intros (n' & [= <-] & H). congruence.
      * intros _. apply (remove_absent _ _ G).
  - repeat split; try discriminate; auto.
    intros (n & H & _). discriminate H.
Qed.

(** [DELETE /entries/9] answered 404 can still change the store: a schedule
    that was created for the missing entry 9 is removed. *)
Example delete_entry_404_cascades :
  let st := step storage (CreateSchedule (a_schedule 9 2) 5) in
  Routes.status (fst (Routes.delete_entry Routes.one_digit "9" st)) = 404 /\
  getScheduleById 1 st <> None /\
  getScheduleById 1 (snd (Routes.delete_entry Routes.one_digit "9" st)) = None.
Proof. repeat split. discriminate. Qed.

(** X18.  [GET /entries] always answers 200 with a sub-list of the entries
    of user 1, in listing order.  A non-empty [type] selects by type whatever
    [categoryId] says; without it, a [categoryId] that is missing, empty, not
    a number or 0 selects nothing and the whole listing is returned. *)
Theorem get_entries_route :
  forall qtype qcategoryId st,
    let r := Routes.get_entries parseInt qtype qcategoryId st in
    Routes.status r = 200 /\
    (exists f, Routes.body r = Routes.JsonEntries (filter f (getEntries 1 st)))
    /\
    (forall t, Routes.truthy qtype = Some t ->
       Routes.body r = Routes.JsonEntries (getEntriesByType 1 t st)) /\
    (Routes.truthy qtype = None ->
     (Routes.truthy qcategoryId = None \/
      exists q, Routes.truthy qcategoryId = Some q /\
                (parseInt q = None \/ parseInt q = Some 0)) ->
     Routes.body r = Routes.JsonEntries (getEntries 1 st)) /\
    (forall q c, Routes.truthy qtype = None ->
       Routes.truthy qcategoryId = Some q -> parseInt q = Some c -> c <> 0 ->
       Routes.body r = Routes.JsonEntries (getEntriesByCategory 1 c st)).
Proof.
  intros qtype qcategoryId st. cbv zeta. unfold Routes.get_entries; simpl.
  assert (Hall : getEntries 1 st = filter (fun _ => true) (getEntries 1 st)).
  { induction (getEntries 1 st) as [|e l IH]; simpl; congruence. }
  split; [reflexivity|]. split; [|split; [|split]].
  - destruct (Routes.truthy qtype) as [t|].
    + eexists. rewrite getEntriesByType_filter. reflexivity.
    + destruct (Routes.truthy qcategoryId) as [q|]; [|eexists; f_equal; exact Hall].
      destruct (parseInt q) as [[|c|c]|]; try (eexists; f_equal; exact Hall);
        eexists; rewrite getEntriesByCategory_filter; reflexivity.
  - intros t ->. reflexivity.
  - intros -> [->|(q & -> & [->| ->])]; reflexivity.
  - intros q c -> -> -> Hc. destruct c; [contradiction|reflexivity..].
Qed.

Lemma patch_entry_eq id body st :
  Routes.patch_entry parseInt id body st =
  match parseInt id with
  | None => (Routes.mkResponse 400 (Routes.Error "Invalid ID"), st)
  | Some n =>
      match JsMap.get n (entries st) with
      | None => (Routes.mkResponse 404 (Routes.Error "Entry not found"), st)
      | Some e =>
          (Routes.mkResponse 200 (Routes.JsonEntry (merge_entry e body)),
           with_entries (JsMap.set n (merge_entry e body))
             (entryIdCounter st) st)
      end
  end.
Proof.
  unfold Routes.patch_entry. destruct (parseInt id) as [n|]; [|reflexivity].
  unfold bind. rewrite updateEntry_eq.
  destruct (JsMap.get n (entries st)); reflexivity.
Qed.

Lemma patch_contact_eq id body st :
  Routes.patch_contact parseInt id body st =
  match parseInt id with
  | None => (Routes.mkResponse 400 (Routes.Error "Invalid ID"), st)
  | Some n =>
      match JsMap.get n (contacts st) with
      | None => (Routes.mkResponse 404 (Routes.Error "Contact not found"), st)
      | Some c =>
          (Routes.mkResponse 200 (Routes.JsonContact (merge_contact c body)),
           with_contacts (JsMap.set n (merge_contact c body))
             (contactIdCounter st) st)
      end
  end.
Proof.
  unfold Routes.patch_contact. destruct (parseInt id) as [n|]; [|reflexivity].
  unfold bind. rewrite updateContact_eq.
  destruct (JsMap.get n (contacts st)); reflexivity.
Qed.

Lemma patch_schedule_eq id body st :
  Routes.patch_schedule parseInt id body st =
  match parseInt id with
  | None => (Routes.mkResponse 400 (Routes.Error "Invalid ID"), st)
  | Some n =>
      match JsMap.get n (schedules st) with
      | None =>
          (Routes.mkResponse 404 (Routes.Error "Schedule not found"), st)
      | Some s =>
          (Routes.mkResponse 200
             (Routes.JsonSchedule (merge_schedule s body)),
           with_schedules (JsMap.set n (merge_schedule s body))
             (scheduleIdCounter st) st)
      end
  end.
Proof.
  unfold Routes.patch_schedule. destruct (parseInt id) as [n|]; [|reflexivity].
  unfold bind. rewrite updateSchedule_eq.
  destruct (JsMap.get n (schedules st)); reflexivity.
Qed.

(** X19.  A [PATCH] of an entry, a contact or a schedule answers 200, 400 or
    404.  When it does not answer 200 the store is as it was.  When it
    answers 200 the record of the answer is the one now stored under the id:
    for an entry, [GET /entries/:id] then gives the very same answer. *)
Theorem patch_routes :
  forall id st,
    (forall body,
       let r := fst (Routes.patch_entry parseInt id body st) in
       let st' := snd (Routes.patch_entry parseInt id body st) in
       (Routes.status r = 200 \/ Routes.status r = 400 \/
        Routes.status r = 404) /\
       (Routes.status r <> 200 -> st' = st) /\
       (Routes.status r = 200 -> Routes.get_entry parseInt id st' = r)) /\
    (forall body,
       let r := fst (Routes.patch_contact parseInt id body st) in
       let st' := snd (Routes.patch_contact parseInt id body st) in
       (Routes.status r = 200 \/ Routes.status r = 400 \/
        Routes.status r = 404) /\
       (Routes.status r <> 200 -> st' = st) /\
       (Routes.status r = 200 ->
        exists n c, parseInt id = Some n /\
                    Routes.body r = Routes.JsonContact c /\
                    getContactById n st' = Some c)) /\
    (forall body,
       let r := fst (Routes.patch_schedule parseInt id body st) in
       let st' := snd (Routes.patch_schedule parseInt id body st) in
       (Routes.status r = 200 \/ Routes.status r = 400 \/
        Routes.status r = 404) /\
       (Routes.status r <> 200 -> st' = st) /\
       (Routes.status r = 200 ->
        exists n s, parseInt id = Some n /\
                    Routes.body r = Routes.JsonSchedule s /\
                    getScheduleById n st' = Some s)).
Proof.
  intros id st. split; [|split]; intros body; cbv zeta.
  - rewrite patch_entry_eq. unfold Routes.get_entry.
    destruct (parseInt id) as [n|]; simpl.
    + destruct (JsMap.get n (entries st)) as [e|]; simpl.
      * split; [auto|]. split; [congruence|]. intros _.
        unfold getEntryById; simpl. rewrite get_set, Z.eqb_refl.
        reflexivity.
      * split; [auto|]. split; [reflexivity|discriminate].
    + split; [auto|]. split; [reflexivity|discriminate].
  - rewrite patch_contact_eq.
    destruct (parseInt id) as [n|]; simpl.
    + destruct (JsMap.get n (contacts st)) as [c|]; simpl.
      * split; [auto|]. split; [congruence|]. intros _.
        exists n, (merge_contact c body). repeat split.
        unfold getContactById; simpl. rewrite get_set, Z.eqb_refl.
        reflexivity.
      * split; [auto|]. split; [reflexivity|discriminate].
    + split; [auto|]. split; [reflexivity|discriminate].
  - rewrite patch_schedule_eq.
    destruct (parseInt id) as [n|]; simpl.
    + destruct (JsMap.get n (schedules st)) as [s|]; simpl.
      * split; [auto|]. split; [congruence|]. intros _.
        exists n, (merge_schedule s body). repeat split.
        unfold getScheduleById; simpl. rewrite get_set, Z.eqb_refl.
        reflexivity.
      * split; [auto|]. split; [reflexivity|discriminate].
    + split; [auto|]. split; [reflexivity|discriminate].
Qed.

(** X20.  [DELETE] of a category, a contact or a schedule answers 204
    exactly when the id reads as a number that has such a record; when it
    answers 400 or 404 the store is as it was; and after the call no such
    record is found under the number. *)
Theorem delete_routes :
  forall id st,
    (let r := fst (Routes.delete_category parseInt id st) in
     let st' := snd (Routes.delete_category parseInt id st) in
     (Routes.status r = 204 <->
      exists n, parseInt id = Some n /\ getCategoryById n st <> None) /\
     (Routes.status r <> 204 -> st' = st) /\
     (forall n, parseInt id = Some n -> getCategoryById n st' = None)) /\
    (let r := fst (Routes.delete_contact parseInt id st) in
     let st' := snd (Routes.delete_contact parseInt id st) in
     (Routes.status r = 204 <->
      exists n, parseInt id = Some n /\ getContactById n st <> None) /\
     (Routes.status r <> 204 -> st' = st) /\
     (forall n, parseInt id = Some n -> getContactById n st' = None)) /\
    (let r := fst (Routes.delete_schedule parseInt id st) in
     let st' := snd (Routes.delete_schedule parseInt id st) in
     (Routes.status r = 204 <->
      exists n, parseInt id = Some n /\ getScheduleById n st <> None) /\
     (Routes.status r <> 204 -> st' = st) /\
     (forall n, parseInt id = Some n -> getScheduleById n st' = None)).
Proof.
  intros id st. split; [|split]; cbv zeta.
  - unfold Routes.delete_category, getCategoryById.
    destruct (parseInt id) as [n|]; simpl.
    + destruct (JsMap.get n (categories st)) as [c|] eqn:G.
      * unfold bind, deleteCategory, gets, modify, ret; simpl.
        rewrite has_get, G. simpl. split; [|split].
        -- split; [|reflexivity]. intros _. exists n. split; congruence.
        -- congruence.
        -- intros n' [= <-]. rewrite get_remove, Z.eqb_refl. reflexivity.
      * unfold bind. rewrite (deleteCategory_not_found n st G). simpl.
        split; [|split].
        -- split; [discriminate|]. intros (n' & [= <-] & H). congruence.
        -- reflexivity.
        -- intros n' [= <-]. exact G.
    + split; [|split].
      * split; [discriminate|]. intros (n & H & _). discriminate H.
      * reflexivity.
      * discriminate.
  - unfold Routes.delete_contact, getContactById.
    destruct (parseInt id) as [n|]; simpl.
    + destruct (JsMap.get n (contacts st)) as [c|] eqn:G.
      * unfold bind, deleteContact, gets, modify, ret; simpl.
        rewrite has_get, G. simpl. split; [|split].
        -- split; [|reflexivity]. intros _. exists n. split; congruence.
        -- congruence.
        -- intros n' [= <-]. rewrite get_remove, Z.eqb_refl. reflexivity.
      * unfold bind. rewrite (deleteContact_not_found n st G). simpl.
        split; [|split].
        -- split; [discriminate|]. intros (n' & [= <-] & H). congruence.
        -- reflexivity.
        -- intros n' [= <-]. exact G.
    + split; [|split].
      * split; [discriminate|]. intros (n & H & _). discriminate H.
      * reflexivity.
      * discriminate.
  - unfold Routes.delete_schedule, getScheduleById.
    destruct (parseInt id) as [n|]; simpl.
    + destruct (JsMap.get n (schedules st)) as [s|] eqn:G.
      * unfold bind. rewrite deleteSchedule_eq; cbv zeta.
        rewrite has_get, G. simpl. split; [|split].
        -- split; [|reflexivity]. intros _. exists n. split; congruence.
        -- congruence.
        -- intros n' [= <-]. rewrite get_remove, Z.eqb_refl. reflexivity.
      * unfold bind. rewrite (deleteSchedule_not_found n st G). simpl.
        split; [|split].
        -- split; [discriminate|]. intros (n' & [= <-] & H). congruence.
        -- reflexivity.
        -- intros n' [= <-]. exact G.
    + split; [|split].
      * split; [discriminate|]. intros (n & H & _). discriminate H.
      * reflexivity.
      * discriminate.
Qed.

End RouteFacts.

Lemma delete_entry_route_witness :
  Routes.status (fst (Routes.delete_entry Routes.one_digit "2" scenario6))
  = 204.
Proof.
  apply (proj1 (delete_entry_route Routes.one_digit "2" scenario6)).
  exists 2. split; [reflexivity|discriminate].
Defined.

Lemma get_entries_route_witness :
  Routes.body
    (Routes.get_entries Routes.one_digit (Some ""%string) (Some "0"%string)
       scenario6)
  = Routes.JsonEntries (getEntries 1 scenario6).
Proof.
  apply (proj1 (proj2 (proj2 (proj2
    (get_entries_route Routes.one_digit (Some ""%string) (Some "0"%string)
       scenario6))))); [reflexivity|].
  right. exists "0"%string. split; [reflexivity|]. right. reflexivity.
Defined.

Lemma patch_routes_witness :
  Routes.get_entry Routes.one_digit "1"
    (snd (Routes.patch_entry Routes.one_digit "1" (set_visibility scheduled)
            scenario6))
  = fst (Routes.patch_entry Routes.one_digit "1" (set_visibility scheduled)
           scenario6).
Proof.
  apply (proj1 (patch_routes Routes.one_digit "1" scenario6)
           (set_visibility scheduled)).
  reflexivity.
Defined.

Lemma delete_routes_witness :
  snd (Routes.delete_schedule Routes.one_digit "7" scenario6) = scenario6.
Proof.
  apply (proj2 (proj2 (delete_routes Routes.one_digit "7" scenario6))).
  discriminate.
Defined.

(* ------------------------------------------------------------------ *)
(** ** The screens of the client *)

Lemma in_sync_filter u st :
  visibility_in_sync st ->
  filter (fun r => is_scheduled (EntryWithSchedule.entry r))
    (getEntriesWithSchedules u st)
  = getScheduledEntries u st.
Proof.
  intros Hsync. unfold getScheduledEntries. apply filter_ext_in.
  intros r Hr. rewrite getEntriesWithSchedules_map in Hr.
  apply in_map_iff in Hr. destruct Hr as (e & <- & He).
  unfold getEntries in He. apply filter_In in He. destruct He as [He _].
  unfold has_schedule, view_of; simpl.
  destruct (getSchedulesByEntryId (Entry.id e) st) as [s|] eqn:F; simpl.
  - apply is_scheduled_iff, (Hsync e He).
    unfold getSchedulesByEntryId in F. apply find_some in F.
    destruct F as [Hin Hr]. exists s. split; [exact Hin|].
    apply refers_to_iff, Hr.
  - apply not_true_iff_false. intros Hv.
    apply is_scheduled_iff, (Hsync e He) in Hv.
    destruct Hv as (s & Hin & Hs). unfold getSchedulesByEntryId in F.
    apply (find_none _ _ F s) in Hin. apply refers_to_iff in Hs. congruence.
Qed.

Lemma map_filter_view st (f : Entry.t -> bool) l :
  map EntryWithSchedule.entry
    (filter (fun r => f (EntryWithSchedule.entry r)) (map (view_of st) l))
  = filter f l.
Proof.
  induction l as [|e l IH]; simpl; [reflexivity|].
  destruct (f e); simpl; rewrite IH; reflexivity.
Qed.

(** X21.  When visibility is in sync with the schedules, the "scheduled" tab
    of the home screen, with no contact selected, shows exactly the records
    that [getScheduledEntries(1)] returns, out of the records of
    [getEntriesWithSchedules(1)]. *)
Theorem scheduled_tab_in_sync :
  forall parseInt st,
    visibility_in_sync st ->
    HomeScreen.filteredEntries parseInt
      (Some (getEntriesWithSchedules 1 st)) "scheduled" None
    = getScheduledEntries 1 st.
Proof.
  intros parseInt st Hsync. rewrite <- (in_sync_filter 1 st Hsync).
  unfold HomeScreen.filteredEntries. apply filter_ext. intros r.
  unfold HomeScreen.matchesCategory; simpl.
  destruct (is_scheduled (EntryWithSchedule.entry r)); reflexivity.
Qed.

Lemma scheduled_tab_in_sync_witness :
  HomeScreen.filteredEntries Routes.one_digit
    (Some (getEntriesWithSchedules 1 scenario6)) "scheduled" None
  = getScheduledEntries 1 scenario6.
Proof.
  apply (scheduled_tab_in_sync Routes.one_digit scenario6).
  apply in_syncb_iff. reflexivity.
Defined.

(** Out of sync, the tab and the query differ: the entry whose visibility
    was patched to "private" is missing from the tab. *)
Example scheduled_tab_out_of_sync :
  HomeScreen.filteredEntries Routes.one_digit
    (Some (getEntriesWithSchedules 1 patched_private_store)) "scheduled" None
  = [] /\
  List.length (getScheduledEntries 1 patched_private_store) = 1%nat.
Proof. split; reflexivity. Qed.

(** X22.  On the records of [getEntriesWithSchedules(1)] and with no contact
    selected, the home screen shows: on the tab "all", every record; on the
    tabs "text", "audio" and "video", the entries of [getEntriesByType]; on
    the tab of a category, whose name reads as the number [n], the entries
    of [getEntriesByCategory(1, n)].  With a contact selected, whatever the
    tab, every record shown embeds a schedule for that contact. *)
Theorem home_screen_tabs :
  forall parseInt st,
    let entries := Some (getEntriesWithSchedules 1 st) in
    HomeScreen.filteredEntries parseInt entries "all" None
    = getEntriesWithSchedules 1 st /\
    (forall t, t = "text"%string \/ t = "audio"%string \/ t = "video"%string ->
       map EntryWithSchedule.entry
         (HomeScreen.filteredEntries parseInt entries t None)
       = getEntriesByType 1 t st) /\
    (forall tab n,
       parseInt tab = Some n ->
       tab <> "all"%string -> tab <> "scheduled"%string ->
       tab <> "text"%string -> tab <> "audio"%string ->
       tab <> "video"%string ->
       map EntryWithSchedule.entry
         (HomeScreen.filteredEntries parseInt entries tab None)
       = getEntriesByCategory 1 n st) /\
    (forall tab c r,
       c <> 0 ->
       In r (HomeScreen.filteredEntries parseInt entries tab (Some c)) ->
       In r (getScheduledEntries 1 st) /\
       exists sw,
         EntryWithSchedule.schedule r = Some sw /\
         Schedule.contactId (ScheduleWithContact.schedule sw) = Some c).
Proof.
  intros parseInt st. cbv zeta. unfold HomeScreen.filteredEntries.
  split; [|split; [|split]].
  - unfold HomeScreen.matchesCategory; simpl.
    induction (getEntriesWithSchedules 1 st) as [|r l IH]; simpl; congruence.
  - intros t Ht. rewrite getEntriesByType_filter, getEntriesWithSchedules_map.
    rewrite <- (map_filter_view st). f_equal. apply filter_ext. intros r.
    unfold HomeScreen.matchesCategory.
    destruct Ht as [->|[->| ->]]; simpl;
      match goal with
      | |- context [String.eqb ?a ?b] => destruct (String.eqb a b)
      end; reflexivity.
  - intros tab n Hn H1 H2 H3 H4 H5.
    rewrite getEntriesByCategory_filter, getEntriesWithSchedules_map.
    rewrite <- (map_filter_view st). f_equal. apply filter_ext. intros r.
    unfold HomeScreen.matchesCategory, in_category.
    apply String.eqb_neq in H1, H2, H3, H4, H5.
    rewrite H1, H2, H3, H4, H5, Hn. simpl.
    destruct (Entry.categoryId (EntryWithSchedule.entry r)) as [c|];
      [|reflexivity].
    destruct (c =? n); reflexivity.
  - intros tab c r Hc Hr. apply filter_In in Hr. destruct Hr as [Hin Hf].
    destruct (negb (HomeScreen.matchesCategory parseInt tab r));
      [discriminate|].
    assert (Hs : HomeScreen.scheduled_for c r = true)
      by (destruct c; [contradiction|exact Hf..]).
    unfold HomeScreen.scheduled_for in Hs.
    destruct (EntryWithSchedule.schedule r) as [sw|] eqn:S; [|discriminate].
    split.
    + unfold getScheduledEntries. apply filter_In. split; [exact Hin|].
      unfold has_schedule. rewrite S. reflexivity.
    + exists sw. split; [reflexivity|].
      destruct (Schedule.contactId (ScheduleWithContact.schedule sw));
        [|discriminate].
      apply Z.eqb_eq in Hs. congruence.
Qed.

Lemma home_screen_tabs_witness :
  map EntryWithSchedule.entry
    (HomeScreen.filteredEntries Routes.one_digit
       (Some (getEntriesWithSchedules 1 scenario6)) "text" None)
  = getEntriesByType 1 "text" scenario6.
Proof.
  apply (proj1 (proj2 (home_screen_tabs Routes.one_digit scenario6))).
  left. reflexivity.
Defined.

Lemma count_by_type_le (l : list EntryWithSchedule.t) :
  (InsightsScreen.count (fun e => String.eqb (Entry.type e) "text") l +
   InsightsScreen.count (fun e => String.eqb (Entry.type e) "audio") l +
   InsightsScreen.count (fun e => String.eqb (Entry.type e) "video") l
   <= List.length l)%nat.
Proof.
  unfold InsightsScreen.count.
  induction l as [|r l IH]; simpl; [lia|].
  destruct (String.eqb_spec (Entry.type (EntryWithSchedule.entry r)) "text");
    destruct
      (String.eqb_spec (Entry.type (EntryWithSchedule.entry r)) "audio");
    destruct
      (String.eqb_spec (Entry.type (EntryWithSchedule.entry r)) "video");
    simpl; try lia; congruence.
Qed.

Lemma count_by_type (l : list EntryWithSchedule.t) :
  Forall (fun r => In (Entry.type (EntryWithSchedule.entry r)) entryTypes) l ->
  List.length l =
  (InsightsScreen.count (fun e => String.eqb (Entry.type e) "text") l +
   InsightsScreen.count (fun e => String.eqb (Entry.type e) "audio") l +
   InsightsScreen.count (fun e => String.eqb (Entry.type e) "video") l)%nat.
Proof.
  unfold InsightsScreen.count.
  induction 1 as [|r l Hr Hl IH]; simpl; [reflexivity|].
  destruct Hr as [E|[E|[E|[]]]]; rewrite <- E; simpl; lia.
Qed.

(** X23.  The counts of the insights screen: the numbers of text, audio and
    video notes are together at most the total, and add up to the total when
    every record has one of the three types (a stored [type] can be another
    string); the number of scheduled notes is at most the total; without
    data all five are 0.  When the data are the records of
    [getEntriesWithSchedules(1)] of a store whose visibility is in sync, the
    number of scheduled notes is the number of records of
    [getScheduledEntries(1)]. *)
Theorem insights_counts :
  forall entries,
    let s := InsightsScreen.stats entries in
    (InsightsScreen.textEntries s + InsightsScreen.audioEntries s +
     InsightsScreen.videoEntries s <= InsightsScreen.totalEntries s)%nat /\
    (forall l,
       entries = Some l ->
       Forall
         (fun r => In (Entry.type (EntryWithSchedule.entry r)) entryTypes) l ->
       InsightsScreen.totalEntries s =
       (InsightsScreen.textEntries s + InsightsScreen.audioEntries s +
        InsightsScreen.videoEntries s)%nat) /\
    (InsightsScreen.scheduledEntries s <= InsightsScreen.totalEntries s)%nat
    /\
    (entries = None -> s = InsightsScreen.mkStats 0 0 0 0 0) /\
    (forall st,
       visibility_in_sync st ->
       entries = Some (getEntriesWithSchedules 1 st) ->
       InsightsScreen.scheduledEntries s
       = List.length (getScheduledEntries 1 st)).
Proof.
  intros entries. cbv zeta. destruct entries as [l|]; simpl.
  - split; [apply count_by_type_le|]. split; [|split; [|split]].
    + intros l' [= <-]. apply count_by_type.
    + unfold InsightsScreen.count. apply filter_length_le.
    + discriminate.
    + intros st Hsync [= ->]. unfold InsightsScreen.count.
      rewrite (in_sync_filter 1 st Hsync). reflexivity.
  - split; [lia|]. split; [discriminate|]. split; [lia|].
    split; [reflexivity|]. intros st _ H. discriminate H.
Qed.

(** With an entry patched to the type "memo" the three counts miss it. *)
Example insights_other_type :
  let st :=
    step one_entry_store
      (UpdateEntry 1
         (PartialEntry.mk None None None None None (Some "memo"%string) None
            None None None)) in
  InsightsScreen.stats (Some (getEntriesWithSchedules 1 st))
  = InsightsScreen.mkStats 1 0 0 0 0.
Proof. reflexivity. Qed.

Lemma insights_counts_witness :
  InsightsScreen.scheduledEntries
    (InsightsScreen.stats (Some (getEntriesWithSchedules 1 scenario6)))
  = List.length (getScheduledEntries 1 scenario6).
Proof.
  apply (proj2 (proj2 (proj2 (proj2
    (insights_counts (Some (getEntriesWithSchedules 1 scenario6))))))
    scenario6); [|reflexivity].
  apply in_syncb_iff. reflexivity.
Defined.

(* ------------------------------------------------------------------ *)
(** ** Listings of categories, contacts and entries *)

(** X24.  In every store reached from the seeded store, [createCategory] and
    [createContact] put the new record last in the listing of its owner,
    leave the listing of every other user as it was, and store the record
    under the id they return without touching the record of any other id. *)
Theorem create_appends_to_owner_listing :
  forall ops u,
    (forall ins,
       let c := fst (createCategory ins (run ops storage)) in
       let st' := snd (createCategory ins (run ops storage)) in
       getCategories u st' =
       getCategories u (run ops storage) ++
       (match InsertCategory.userId ins with
        | Some o => if o =? u then [c] else []
        | None => []
        end) /\
       getCategoryById (Category.id c) st' = Some c /\
       forall i, i <> Category.id c ->
                 getCategoryById i st' = getCategoryById i (run ops storage))
    /\
    (forall ins,
       let c := fst (createContact ins (run ops storage)) in
       let st' := snd (createContact ins (run ops storage)) in
       getContacts u st' =
       getContacts u (run ops storage) ++
       (match InsertContact.userId ins with
        | Some o => if o =? u then [c] else []
        | None => []
        end) /\
       getContactById (Contact.id c) st' = Some c /\
       forall i, i <> Contact.id c ->
                 getContactById i st' = getContactById i (run ops storage)).
Proof.
  intros ops u.
  pose proof (run_ok ops storage storage_ok) as [_ Hc _ Hk _].
  pose proof (below_fresh _ _ Hc) as Gc.
  pose proof (below_fresh _ _ Hk) as Gk.
  set (st := run ops storage) in *. split; intros ins; cbv zeta; simpl.
  - split; [|split].
    + unfold getCategories; simpl. rewrite (set_fresh _ _ _ Gc).
      unfold JsMap.values. rewrite map_app, filter_app. simpl.
      destruct (InsertCategory.userId ins) as [o|]; [|reflexivity].
      destruct (o =? u); reflexivity.
    + unfold getCategoryById; simpl. rewrite get_set, Z.eqb_refl.
      reflexivity.
    + intros i Hi. unfold getCategoryById; simpl. rewrite get_set.
      destruct (Z.eqb_spec i (categoryIdCounter st));
        [contradiction|reflexivity].
  - split; [|split].
    + unfold getContacts; simpl. rewrite (set_fresh _ _ _ Gk).
      unfold JsMap.values. rewrite map_app, filter_app. simpl.
      destruct (InsertContact.userId ins) as [o|]; [|reflexivity].
      destruct (o =? u); reflexivity.
    + unfold getContactById; simpl. rewrite get_set, Z.eqb_refl.
      reflexivity.
    + intros i Hi. unfold getContactById; simpl. rewrite get_set.
      destruct (Z.eqb_spec i (contactIdCounter st));
        [contradiction|reflexivity].
Qed.

Lemma keyed_ids_are_keys (m : JsMap.t Entry.t) :
  (forall k e, In (k, e) m -> Entry.id e = k) ->
  map Entry.id (JsMap.values m) = JsMap.keys m.
Proof.
  unfold JsMap.values, JsMap.keys. rewrite map_map. intros H.
  apply map_ext_in. intros [k e] Hin. simpl. apply H, Hin.
Qed.

Lemma sorted_map_filter {A} (g : A -> Z) (f : A -> bool) l :
  StronglySorted Z.lt (map g l) -> StronglySorted Z.lt (map g (filter f l)).
Proof.
  induction l as [|x l IH]; simpl; intros H; [constructor|].
  inversion H as [|? ? Hs Hx]; subst.
  destruct (f x); simpl; [|auto]. constructor; [auto|].
  rewrite Forall_forall in *. intros y Hy. apply Hx.
  apply in_map_iff in Hy. destruct Hy as (z & <- & Hz).
  apply filter_In in Hz. apply in_map, Hz.
Qed.

(** X25.  Along every run from the seeded store in which no update carries
    an [id] in its partial, [getEntries(userId)] and its two filtered forms
    list the entries by strictly increasing id, the order of their
    creation. *)
Theorem entries_listed_by_id :
  forall ops u,
    forallb keeps_ids ops = true ->
    StronglySorted Z.lt (map Entry.id (getEntries u (run ops storage))) /\
    (forall t, StronglySorted Z.lt
                 (map Entry.id (getEntriesByType u t (run ops storage)))) /\
    (forall c, StronglySorted Z.lt
                 (map Entry.id (getEntriesByCategory u c (run ops storage)))).
Proof.
  intros ops u Hops.
  destruct (run_keeps_ids ops storage Hops eq_refl eq_refl) as [He _].
  rewrite keyed_entries_In in He.
  destruct (ok_entries _ (run_ok ops storage storage_ok)) as (_ & Hs & _).
  rewrite <- (keyed_ids_are_keys _ He) in Hs.
  split; [|split]; intros; apply sorted_map_filter, Hs.
Qed.

Lemma entries_listed_by_id_witness :
  StronglySorted Z.lt (map Entry.id (getEntries 1 scenario6)).
Proof.
  apply (entries_listed_by_id
           [CreateEntry (an_entry None) 5; CreateEntry (an_entry None) 6;
            CreateSchedule (a_schedule 2 2) 7] 1).
  reflexivity.
Defined.

(* ------------------------------------------------------------------ *)
(** ** The theorems above at sample stores *)

Lemma createEntry_appends_to_listing_witness :
  getEntries 1 (snd (createEntry (an_entry None) 5 (run [] storage)))
  = getEntries 1 (run [] storage) ++
    (if owned_by 1 (fst (createEntry (an_entry None) 5 (run [] storage)))
     then [fst (createEntry (an_entry None) 5 (run [] storage))] else []).
Proof.
  exact (proj1 (proj2
    (createEntry_appends_to_listing [] (an_entry None) 5 1))).
Defined.

Lemma deleteCategory_no_cascade_witness :
  getCategoryById 1 (snd (deleteCategory 2 storage))
  = getCategoryById 1 storage.
Proof.
  apply (proj1 (proj2 (proj2 (deleteCategory_no_cascade 2 storage)))).
  discriminate.
Defined.

Lemma filtered_listings_witness :
  List.length (getEntries 1 scenario6) =
  (List.length (getEntriesByType 1 "text" scenario6) +
   List.length (getEntriesByType 1 "audio" scenario6) +
   List.length (getEntriesByType 1 "video" scenario6))%nat.
Proof.
  apply (proj2 (proj2 (proj2 (proj2 (filtered_listings 1 scenario6))))).
  apply Forall_forall. intros e He. vm_compute in He.
  destruct He as [<-|[<-|[]]]; left; reflexivity.
Defined.

Lemma create_appends_to_owner_listing_witness :
  getContactById 2
    (snd (createContact (InsertContact.mk (Some 1) "Ann" None None)
            (run [] storage)))
  = getContactById 2 (run [] storage).
Proof.
  apply (proj2 (proj2 (proj2 (create_appends_to_owner_listing [] 1)
           (InsertContact.mk (Some 1) "Ann" None None)))).
  discriminate.
Defined.

(** Scenario 1 through the API: the three seeded categories, in order. *)
Example get_categories_seeded :
  match Routes.body (Routes.get_categories storage) with
  | Routes.JsonCategories l => map Category.name l
  | _ => []
  end = ["Personal"; "Work"; "Ideas"]%string /\
  match Routes.body (Routes.get_contacts storage) with
  | Routes.JsonContacts l => map Contact.name l
  | _ => []
  end = ["Myself"; "Mom"; "Partner"]%string /\
  Routes.get_scheduled_entries storage
  = Routes.mkResponse 200 (Routes.JsonViews []) /\
  Routes.get_entries_with_schedules storage
  = Routes.mkResponse 200 (Routes.JsonViews []).
Proof. repeat split. Qed.
